(** * The static filter of skipper and its delayed body

    A verification development for
    [vendor/github.com/zalando/skipper/filters/builtin/static.go].

    The file has three layers.

    - The Go library pieces the code calls: [strconv.Atoi], the two ends
      of an [io.Pipe], a channel that is only ever closed, the header map.
    - The methods of [delayedBody] ([Write], [WriteHeader], [Read],
      [Close]), [newDelayed] and [static.Request], written in a small
      monad of effects so that each definition reads like its Go source.
    - Two semantics of that monad: [run], one goroutine running alone,
      and [sys_step], the constructing goroutine interleaved with the
      producer goroutine that [newDelayed] starts. *)

From Stdlib Require Import ZArith String Ascii List Lia Bool.
From Stdlib Require Import Strings.Byte DecimalString.
From stdpp Require Import base option list gmap strings.
Import ListNotations.

Local Open Scope string_scope.
Local Open Scope Z_scope.
Local Open Scope list_scope.

(** ** Go values *)

(** The errors that reach this code: the two sentinel errors of package
    [io] and the two causes a [*strconv.NumError] can carry. *)
Inductive error : Type :=
| EOF
| ErrClosedPipe
| ErrSyntax
| ErrRange.

Definition isSome {A} (o : option A) : bool :=
  match o with Some _ => true | None => false end.

(** Go's [int] on a 64-bit platform: additions wrap around. *)
Definition maxInt : Z := 2 ^ 63 - 1.
Definition maxUint64 : Z := 2 ^ 64 - 1.

Definition wrap (z : Z) : Z := (z + 2 ^ 63) mod 2 ^ 64 - 2 ^ 63.

Definition len (data : list byte) : Z := Z.of_nat (length data).

(** [[]byte(s)] *)
Definition bytes (s : string) : list byte := list_byte_of_string s.

(** ** strconv.Atoi

    [Atoi s] is [ParseInt(s, 10, 0)]: an optional sign, then one or more
    decimal digits. A syntax error gives [(0, err)]; a value out of the
    range of [int] gives the nearest bound and a range error. The range
    error of [ParseUint] is raised at the digit that overflows, before
    the rest of the string is looked at. *)

Definition digit (c : ascii) : option Z :=
  let n := Z.of_nat (nat_of_ascii c) in
  if (48 <=? n) && (n <=? 57) then Some (n - 48) else None.

Fixpoint ParseUint_digits (s : string) (n : Z) : Z * option error :=
  match s with
  | EmptyString => (n, None)
  | String c s' =>
      match digit c with
      | None => (0, Some ErrSyntax)
      | Some v =>
          if maxUint64 <? n * 10 + v then (maxUint64, Some ErrRange)
          else ParseUint_digits s' (n * 10 + v)
      end
  end.

Definition ParseUint (s : string) : Z * option error :=
  match s with
  | EmptyString => (0, Some ErrSyntax)
  | _ => ParseUint_digits s 0
  end.

Definition ParseInt (s : string) : Z * option error :=
  match s with
  | EmptyString => (0, Some ErrSyntax)
  | String c s' =>
      let '(neg, digits) :=
        if Ascii.eqb c "+" then (false, s')
        else if Ascii.eqb c "-" then (true, s')
        else (false, s) in
      match ParseUint digits with
      | (_, Some ErrSyntax) => (0, Some ErrSyntax)
      | (un, _) =>
          let cutoff := 2 ^ 63 in
          if negb neg && (cutoff <=? un) then (cutoff - 1, Some ErrRange)
          else if neg && (cutoff <? un) then (- cutoff, Some ErrRange)
          else (if neg then - un else un, None)
      end
  end.

Definition Atoi (s : string) : Z * option error := ParseInt s.

(** ** io.Pipe

    One pipe, two ends. [rerr] is set when the read end is closed, [werr]
    when the write end is; the first error stored on a side stays. The
    pipe has no buffer: a [Write] hands its bytes to the reads that meet
    it and returns when they are all taken or an end is closed. [rd] is
    everything the read end has handed out so far, oldest byte first. *)

Record Pipe : Type := mkPipe {
  rerr : option error;
  werr : option error;
  rd : list byte
}.

Definition io_Pipe : Pipe := mkPipe None None [].

Definition pipe_done (p : Pipe) : bool := isSome (rerr p) || isSome (werr p).

(** The error a write meets on a closed pipe. *)
Definition writeCloseError (p : Pipe) : error :=
  match werr p, rerr p with
  | None, Some e => e
  | _, _ => ErrClosedPipe
  end.

(** The error a read meets on a closed pipe. *)
Definition readCloseError (p : Pipe) : error :=
  match rerr p, werr p with
  | None, Some e => e
  | _, _ => ErrClosedPipe
  end.

(** [w.CloseWithError(err)]; a nil [err] stands for [io.EOF]. *)
Definition PipeWriter_CloseWithError (err : option error) (p : Pipe) : Pipe :=
  match werr p with
  | Some _ => p
  | None => mkPipe (rerr p) (Some (default EOF err)) (rd p)
  end.

(** [r.CloseWithError(err)]; a nil [err] stands for [io.ErrClosedPipe]. *)
Definition PipeReader_CloseWithError (err : option error) (p : Pipe) : Pipe :=
  match rerr p with
  | Some _ => p
  | None => mkPipe (Some (default ErrClosedPipe err)) (werr p) (rd p)
  end.

(** What the goroutine holding the body does while a write waits on the
    pipe: it reads until the write is used up, or it reads [k] bytes and
    then gives the body up with [delayedBody.Close]. *)
Inductive reader : Type :=
| Drains
| ClosesAfter (k : nat).

(** How a call ends: it returns, it never returns, or it panics. *)
Inductive outcome (X : Type) : Type :=
| Returns (x : X)
| Blocks
| Panics.
Arguments Returns {X} x.
Arguments Blocks {X}.
Arguments Panics {X}.

(** [w.Write(data)], given what the other side does meanwhile ([None]:
    nobody reads and nobody closes). *)
Definition PipeWriter_Write (c : option reader) (data : list byte) (p : Pipe)
  : outcome (Z * option error) * Pipe :=
  if pipe_done p then (Returns (0, Some (writeCloseError p)), p)
  else
    match c with
    | None => (Blocks, p)
    | Some Drains =>
        (Returns (len data, None), mkPipe (rerr p) (werr p) (rd p ++ data))
    | Some (ClosesAfter k) =>
        let p' :=
          PipeWriter_CloseWithError None
            (PipeReader_CloseWithError None
               (mkPipe (rerr p) (werr p) (rd p ++ take k data))) in
        if (Z.of_nat k <? len data) || (len data =? 0)
        then (Returns (len (take k data), Some (writeCloseError p')), p')
        else (Returns (len data, None), p')
    end.

(** [r.Read(buf)] while no write is waiting: the closed pipe answers with
    its error, the open one keeps the caller waiting. *)
Definition PipeReader_Read (p : Pipe) : outcome (Z * option error) :=
  if pipe_done p then Returns (0, Some (readCloseError p)) else Blocks.

(** ** The data of the program *)

(** What the code reads of a [*http.Request]. *)
Record http_Request : Type := mkRequest {
  Method : string;
  URL_Path : string
}.

(** The one body this code puts into a response: the [*delayedBody]. *)
Inductive ReadCloser : Type := Delayed.

(** [http.Response]: the fields this code sets. A nil header map reads
    as the empty one. *)
Record http_Response : Type := mkResponse {
  StatusCode : Z;
  Header : gmap string (list string);
  Body : option ReadCloser
}.

(** [chan struct{}] on which nothing is ever sent. *)
Inductive chan : Type := Open | Closed.

(** [delayedBody]. [reader] and [writer] are the two ends of one pipe,
    so the record holds the pipe. *)
Record delayedBody : Type := mkDelayedBody {
  request : http_Request;
  path : string;
  response : http_Response;
  pipe : Pipe;
  contentLength : Z;
  written : Z;
  headerDone : chan
}.

(** [static] *)
Record static : Type := mkStatic {
  webRoot : string;
  root : string
}.

(** A [*http.Response] handed to [ctx.Serve]: a response built on the
    spot, or the response the bridge shares with its producer. *)
Inductive ResponsePtr : Type :=
| Literal (r : http_Response)
| OfBridge.

(** [h.Get(key)] for a key in canonical form: the first value, or the
    empty string. *)
Definition Header_Get (h : gmap string (list string)) (key : string) : string :=
  match h !! key with
  | Some (v :: _) => v
  | _ => ""
  end.

(** What a goroutine did, in the order it happened. *)
Inductive event : Type :=
| E_new
| E_go (p : string)
| E_Body
| E_Serve (r : ResponsePtr)
| E_StatusCode (s : Z)
| E_Header (key : string) (vs : list string)
| E_contentLength (z : Z)
| E_written (z : Z)
| E_headerDone
| E_Write (data : list byte) (n : Z) (err : option error)
| E_CloseWithError (e : option error)
| E_ReaderClose
| E_Log (e : error).

(** Everything one request touches: the bridge, the filter context
    (its request and what was served), the producers started, what the
    reading side will do at each write that waits for it, and the
    events so far. *)
Record world : Type := mkWorld {
  db : delayedBody;
  ctx_request : http_Request;
  served : option ResponsePtr;
  started : list string;
  readers : list reader;
  trace : list event
}.

Definition set_response (f : http_Response -> http_Response) (b : delayedBody) : delayedBody :=
  mkDelayedBody (request b) (path b) (f (response b)) (pipe b)
                (contentLength b) (written b) (headerDone b).

Definition set_pipe (f : Pipe -> Pipe) (b : delayedBody) : delayedBody :=
  mkDelayedBody (request b) (path b) (response b) (f (pipe b))
                (contentLength b) (written b) (headerDone b).

Definition set_contentLength (z : Z) (b : delayedBody) : delayedBody :=
  mkDelayedBody (request b) (path b) (response b) (pipe b)
                z (written b) (headerDone b).

Definition set_written (z : Z) (b : delayedBody) : delayedBody :=
  mkDelayedBody (request b) (path b) (response b) (pipe b)
                (contentLength b) z (headerDone b).

Definition set_headerDone (c : chan) (b : delayedBody) : delayedBody :=
  mkDelayedBody (request b) (path b) (response b) (pipe b)
                (contentLength b) (written b) c.

Definition set_db (f : delayedBody -> delayedBody) (ev : list event) (w : world) : world :=
  mkWorld (f (db w)) (ctx_request w) (served w) (started w) (readers w)
          (trace w ++ ev).

(** The bridge as [newDelayed] builds it: a new pipe, a response with an
    empty header map, a new channel, every other field zero. *)
Definition new_delayedBody (req : http_Request) : delayedBody :=
  mkDelayedBody req "" (mkResponse 0 ∅ None) io_Pipe 0 0 Open.

(** ** The monad of effects

    One constructor for each thing the code does to the world: a field
    read or written, a call on the pipe, the channel, the logger or the
    filter context. *)
Inductive eff : Type -> Type :=
(* filters.FilterContext *)
| Ctx_Request : eff http_Request
| Ctx_Serve (r : ResponsePtr) : eff unit
(* newDelayed *)
| New_delayedBody (req : http_Request) : eff unit
| Go_ServeFile (p : string) : eff unit
| Recv_headerDone : eff unit
| Set_Body : eff unit
(* b.request, b.response *)
| Get_Method : eff string
| Set_StatusCode (s : Z) : eff unit
| Get_StatusCode : eff Z
| Get_Header (key : string) : eff string
| Put_Header (key : string) (vs : list string) : eff unit
(* b.contentLength, b.written, b.headerDone *)
| Get_contentLength : eff Z
| Set_contentLength (z : Z) : eff unit
| Get_written : eff Z
| Set_written (z : Z) : eff unit
| Close_headerDone : eff unit
(* b.writer, b.reader *)
| Writer_Write (data : list byte) : eff (Z * option error)
| Writer_CloseWithError (e : option error) : eff unit
| Reader_Read (size : nat) : eff (Z * option error)
| Reader_Close : eff unit
(* log *)
| Log_Error (e : error) : eff unit.

Inductive prog (A : Type) : Type :=
| Ret (a : A)
| Vis {X : Type} (e : eff X) (k : X -> prog A).
Arguments Ret {A} a.
Arguments Vis {A X} e k.

Fixpoint bind {A B} (m : prog A) (f : A -> prog B) : prog B :=
  match m with
  | Ret a => f a
  | Vis e k => Vis e (fun x => bind (k x) f)
  end.

Definition call {X} (e : eff X) : prog X := Vis e Ret.

Declare Scope prog_scope.
Delimit Scope prog_scope with prog.
Notation "x <- m ;; k" := (bind m (fun x => k))
  (at level 100, m at next level, right associativity) : prog_scope.
Notation "m ;; k" := (bind m (fun _ => k))
  (at level 100, right associativity) : prog_scope.

(** What each effect does to the world when it is the next thing to
    happen. *)
Definition handle {X} (e : eff X) (w : world) : outcome X * world :=
  match e in eff X return outcome X * world with
  | Ctx_Request => (Returns (ctx_request w), w)
  | Ctx_Serve r =>
      (Returns tt,
       mkWorld (db w) (ctx_request w) (Some r) (started w) (readers w)
               (trace w ++ [E_Serve r]))
  | New_delayedBody req =>
      (Returns tt, set_db (fun _ => new_delayedBody req) [E_new] w)
  | Go_ServeFile p =>
      (Returns tt,
       mkWorld (db w) (ctx_request w) (served w) (started w ++ [p]) (readers w)
               (trace w ++ [E_go p]))
  | Recv_headerDone =>
      match headerDone (db w) with
      | Closed => (Returns tt, w)
      | Open => (Blocks, w)
      end
  | Set_Body =>
      (Returns tt,
       set_db (set_response (fun r => mkResponse (StatusCode r) (Header r) (Some Delayed)))
              [E_Body] w)
  | Get_Method => (Returns (Method (request (db w))), w)
  | Set_StatusCode s =>
      (Returns tt,
       set_db (set_response (fun r => mkResponse s (Header r) (Body r)))
              [E_StatusCode s] w)
  | Get_StatusCode => (Returns (StatusCode (response (db w))), w)
  | Get_Header key => (Returns (Header_Get (Header (response (db w))) key), w)
  | Put_Header key vs =>
      (Returns tt,
       set_db (set_response (fun r => mkResponse (StatusCode r) (<[key := vs]> (Header r)) (Body r)))
              [E_Header key vs] w)
  | Get_contentLength => (Returns (contentLength (db w)), w)
  | Set_contentLength z => (Returns tt, set_db (set_contentLength z) [E_contentLength z] w)
  | Get_written => (Returns (written (db w)), w)
  | Set_written z => (Returns tt, set_db (set_written z) [E_written z] w)
  | Close_headerDone =>
      match headerDone (db w) with
      | Open => (Returns tt, set_db (set_headerDone Closed) [E_headerDone] w)
      | Closed => (Panics, w)
      end
  | Writer_Write data =>
      let rest := if pipe_done (pipe (db w)) then readers w else tail (readers w) in
      match PipeWriter_Write (head (readers w)) data (pipe (db w)) with
      | (Returns (n, err), p') =>
          (Returns (n, err),
           mkWorld (set_pipe (fun _ => p') (db w)) (ctx_request w) (served w)
                   (started w) rest (trace w ++ [E_Write data n err]))
      | (Blocks, _) => (Blocks, w)
      | (Panics, _) => (Panics, w)
      end
  | Writer_CloseWithError e =>
      (Returns tt, set_db (set_pipe (PipeWriter_CloseWithError e)) [E_CloseWithError e] w)
  | Reader_Read _ =>
      match PipeReader_Read (pipe (db w)) with
      | Returns r => (Returns r, w)
      | Blocks => (Blocks, w)
      | Panics => (Panics, w)
      end
  | Reader_Close =>
      (Returns tt, set_db (set_pipe (PipeReader_CloseWithError None)) [E_ReaderClose] w)
  | Log_Error e => (Returns tt, set_db (fun b => b) [E_Log e] w)
  end.

(** One goroutine running alone: effects happen one after the other
    until the program returns, waits for ever, or panics. *)
Fixpoint run {A} (p : prog A) (w : world) : outcome A * world :=
  match p with
  | Ret a => (Returns a, w)
  | Vis e k =>
      match handle e w with
      | (Returns x, w') => run (k x) w'
      | (Blocks, w') => (Blocks, w')
      | (Panics, w') => (Panics, w')
      end
  end.

Local Open Scope prog_scope.

(** [http.ServeFile], seen from the [http.ResponseWriter] it is given:
    the calls it makes on it, each [Write] followed by whatever it does
    with the result. *)
Inductive producer : Type :=
| P_return
| P_Header (key : string) (vs : list string) (next : producer)
| P_WriteHeader (status : Z) (next : producer)
| P_Write (data : list byte) (next : Z * option error -> producer).

(** ** Two goroutines

    [newDelayed] starts the producer with [go] and then waits on
    [headerDone]. The state of the two goroutines together: the world,
    what is left of the constructing goroutine's program (the caller of
    [newDelayed] included), what is left of the producer's once it is
    started, and whether a panic has taken the process down. *)
Record sys (A : Type) : Type := mkSys {
  sworld : world;
  caller : prog A;
  producing : option (prog unit);
  panicked : bool
}.
Arguments mkSys {A} _ _ _ _.
Arguments sworld {A} _.
Arguments caller {A} _.
Arguments producing {A} _.
Arguments panicked {A} _.

Inductive goroutine : Type := Constructing | Producing.

Definition returned {A} (c : prog A) : bool :=
  match c with Ret _ => true | Vis _ _ => false end.

(** The path of the [go http.ServeFile(db, db.request, p)] statement, if
    the effect is one. *)
Definition spawns {X} (e : eff X) : option string :=
  match e with
  | Go_ServeFile p => Some p
  | _ => None
  end.

Definition is_Write {X} (e : eff X) : bool :=
  match e with
  | Writer_Write _ => true
  | _ => false
  end.

Section Static.

(** [http.StatusText], [path.Join] and [http.ServeFile] are library
    functions of Go; the development holds for whatever they compute. *)
Variable StatusText : Z -> string.
Variable path_Join : string -> string -> string.
Variable ServeFile : http_Request -> string -> producer.

(** ** The methods of [delayedBody] *)

Definition Read (size : nat) : prog (Z * option error) :=
  call (Reader_Read size).

(** The test the two sink methods start with, [||] evaluated left to
    right: [b.request.Method == "HEAD" || status >= 300 && ...]. *)
Definition is_HEAD : prog bool :=
  m <- call Get_Method ;; Ret (m =? "HEAD")%string.

Definition Write (data : list byte) : prog (Z * option error) :=
  head_ <- is_HEAD ;;
  no_body <- (if head_ then Ret true
              else sc <- call Get_StatusCode ;; Ret (300 <=? sc)) ;;
  if no_body then Ret (0, None)
  else
    r <- call (Writer_Write data) ;;
    let '(n, err) := r in
    if isSome err then Ret (n, err)
    else
      cl <- call Get_contentLength ;;
      (if 0 <=? cl then
         wr <- call Get_written ;;
         call (Set_written (wrap (wr + n))) ;;
         wr' <- call Get_written ;;
         cl' <- call Get_contentLength ;;
         if cl' <=? wr' then call (Writer_CloseWithError (Some EOF))
         else Ret tt
       else Ret tt) ;;
      Ret (n, err).

Definition WriteHeader (status : Z) : prog unit :=
  call (Set_StatusCode status) ;;
  head_ <- is_HEAD ;;
  if head_ || ((300 <=? status) && (status <? 400)) then
    call (Writer_CloseWithError (Some EOF)) ;;
    call Close_headerDone
  else if 400 <=? status then
    call Close_headerDone ;;
    r <- call (Writer_Write (bytes (StatusText status))) ;;
    match snd r with
    | Some err => call (Log_Error err)
    | None => Ret tt
    end ;;
    call (Writer_CloseWithError (Some EOF))
  else
    ce <- call (Get_Header "Content-Encoding") ;;
    if negb (ce =? "")%string then
      call (Set_contentLength (-1)) ;;
      call Close_headerDone
    else
      v <- call (Get_Header "Content-Length") ;;
      let '(cl, err) := Atoi v in
      if (cl =? 0) || isSome err then
        match err with
        | Some e =>
            v' <- call (Get_Header "Content-Length") ;;
            if negb (v' =? "")%string then call (Log_Error e) else Ret tt
        | None => Ret tt
        end ;;
        call (Writer_CloseWithError (Some EOF)) ;;
        call Close_headerDone
      else
        call (Set_contentLength cl) ;;
        call Close_headerDone.

Definition Close : prog (option error) :=
  call Reader_Close ;;
  call (Writer_CloseWithError None) ;;
  Ret None.

(** ** [newDelayed] and [static.Request] *)

Definition newDelayed (req : http_Request) (p : string) : prog ResponsePtr :=
  call (New_delayedBody req) ;;
  call (Go_ServeFile p) ;;
  call Recv_headerDone ;;
  call Set_Body ;;
  Ret OfBridge.

(** [p[n:]] *)
Fixpoint string_from (n : nat) (p : string) : string :=
  match n, p with
  | O, _ => p
  | S n', String _ p' => string_from n' p'
  | S _, EmptyString => EmptyString
  end.

Definition Request (f : static) : prog unit :=
  req <- call Ctx_Request ;;
  let p := URL_Path req in
  if (String.length p <? String.length (webRoot f))%nat then
    call (Ctx_Serve (Literal (mkResponse 404 ∅ None)))
  else
    rsp <- newDelayed req (path_Join (root f) (string_from (String.length (webRoot f)) p)) ;;
    call (Ctx_Serve rsp).

(** A producer that does nothing but write: one [Write] call for each
    buffer, the results collected in order. *)
Fixpoint Writes (ws : list (list byte)) : prog (list (Z * option error)) :=
  match ws with
  | [] => Ret []
  | data :: ws' =>
      r <- Write data ;;
      rs <- Writes ws' ;;
      Ret (r :: rs)
  end.

(** The calls of the producer, as the program its goroutine runs. *)
Fixpoint producer_prog (p : producer) : prog unit :=
  match p with
  | P_return => Ret tt
  | P_Header key vs next => call (Put_Header key vs) ;; producer_prog next
  | P_WriteHeader status next => WriteHeader status ;; producer_prog next
  | P_Write data next => r <- Write data ;; producer_prog (next r)
  end.

(** ** The two goroutines under a schedule *)

(** One step of the constructing goroutine: its next effect happens if
    it can. The [go] statement also starts the producer. *)
Definition step_caller {A} (s : sys A) : sys A :=
  if panicked s then s
  else
    match caller s with
    | Ret _ => s
    | Vis e k =>
        match handle e (sworld s) with
        | (Returns x, w') =>
            mkSys w' (k x)
                  (match spawns e with
                   | Some p =>
                       Some (producer_prog (ServeFile (request (db w')) p))
                   | None => producing s
                   end)
                  false
        | (Blocks, _) => s
        | (Panics, w') => mkSys w' (caller s) (producing s) true
        end
    end.

(** One step of the producer. The read end of the pipe is reachable
    only through the response that the constructing goroutine hands
    out, so a write on the open pipe finds nobody to take its bytes
    before that goroutine has returned. *)
Definition step_producer {A} (s : sys A) : sys A :=
  if panicked s then s
  else
    match producing s with
    | None => s
    | Some (Ret _) => s
    | Some (Vis e k) =>
        if is_Write e && negb (pipe_done (pipe (db (sworld s))))
           && negb (returned (caller s))
        then s
        else
          match handle e (sworld s) with
          | (Returns x, w') => mkSys w' (caller s) (Some (k x)) false
          | (Blocks, _) => s
          | (Panics, w') => mkSys w' (caller s) (producing s) true
          end
    end.

Definition sys_step {A} (s : sys A) (g : goroutine) : sys A :=
  match g with
  | Constructing => step_caller s
  | Producing => step_producer s
  end.

(** The two goroutines under a schedule. *)
Definition sys_run {A} (sched : list goroutine) (s : sys A) : sys A :=
  fold_left sys_step sched s.

End Static.

(** The world a request arrives in: no bridge yet (every field of [db]
    zero), nothing served, no producer started. *)
Definition world_init (req : http_Request) (rs : list reader) : world :=
  mkWorld (mkDelayedBody (mkRequest "" "") "" (mkResponse 0 ∅ None) io_Pipe 0 0 Open)
          req None [] rs [].

Definition sys_init {A} (req : http_Request) (rs : list reader) (c : prog A) : sys A :=
  mkSys (world_init req rs) c None false.

(** ** Worlds after a write

    The three things [Write] can do to the world once the pipe has
    taken the bytes. *)

(** The pipe took [data]. *)
Definition forwarded (data : list byte) (w : world) : world :=
  mkWorld (set_pipe (fun p => mkPipe (rerr p) (werr p) (rd p ++ data)) (db w))
          (ctx_request w) (served w) (started w) (tail (readers w))
          (trace w ++ [E_Write data (len data) None]).

(** [b.written += n] *)
Definition counted (n : Z) (w : world) : world :=
  let z := wrap (written (db w) + n) in
  set_db (set_written z) [E_written z] w.

(** [b.writer.CloseWithError(io.EOF)] *)
Definition closed (w : world) : world :=
  set_db (set_pipe (PipeWriter_CloseWithError (Some EOF)))
         [E_CloseWithError (Some EOF)] w.

(** [b.response.StatusCode = status] *)
Definition assigned (status : Z) (w : world) : world :=
  set_db (set_response (fun r => mkResponse status (Header r) (Body r)))
         [E_StatusCode status] w.

(** [close(b.headerDone)] on the open channel *)
Definition signalled (w : world) : world :=
  set_db (set_headerDone Closed) [E_headerDone] w.

(** [b.contentLength = cl] *)
Definition sized (cl : Z) (w : world) : world :=
  set_db (set_contentLength cl) [E_contentLength cl] w.

(** [b.reader.Close(); b.writer.Close()] *)
Definition torn_down (w : world) : world :=
  set_db (set_pipe (PipeWriter_CloseWithError None)) [E_CloseWithError None]
    (set_db (set_pipe (PipeReader_CloseWithError None)) [E_ReaderClose] w).

(** The pipe was closed already and refused the bytes. *)
Definition refused (data : list byte) (w : world) : world :=
  mkWorld (db w) (ctx_request w) (served w) (started w) (readers w)
          (trace w ++ [E_Write data 0 (Some (writeCloseError (pipe (db w))))]).

Definition is_headerDone (e : event) : bool :=
  match e with E_headerDone => true | _ => false end.

Definition is_CloseWithError (e : event) : bool :=
  match e with E_CloseWithError _ => true | _ => false end.

Definition is_Log (e : event) : bool :=
  match e with E_Log _ => true | _ => false end.

Fixpoint count_events (f : event -> bool) (evs : list event) : nat :=
  match evs with
  | [] => O
  | e :: evs' => ((if f e then 1 else 0) + count_events f evs')%nat
  end.

(** A request that gets a body: not [HEAD], and a status below 300. *)
Definition has_body (w : world) : Prop :=
  Method (request (db w)) <> "HEAD" /\ StatusCode (response (db w)) < 300.

Definition total_len (ws : list (list byte)) : Z := len (concat ws).

(** The bridge after the pipe took all of [ws] and the bytes were
    counted. *)
Definition streamed (ws : list (list byte)) (b : delayedBody) : delayedBody :=
  set_written (written b + total_len ws)
    (set_pipe (fun p => mkPipe (rerr p) (werr p) (rd p ++ concat ws)) b).

(** The bridge as the producer finds it when it has put the headers [h]
    and is about to call [WriteHeader]. *)
Definition constructed (req : http_Request) (h : gmap string (list string)) : delayedBody :=
  mkDelayedBody req "" (mkResponse 0 h None) io_Pipe 0 0 Open.

(** The states the pipe of this program can be in: the write end is only
    ever closed with [io.EOF], the read end only with a nil error. *)
Definition pipe_ok (p : Pipe) : Prop :=
  (werr p = None \/ werr p = Some EOF) /\
  (rerr p = None \/ rerr p = Some ErrClosedPipe).

(** ** Notions the statements use *)

(** The relation between the world before and after writes that never
    close the pipe on a count. *)
Definition no_auto_close (w w' : world) : Prop :=
  (exists evs, trace w' = trace w ++ evs /\ count_events is_CloseWithError evs = O) /\
  has_body w' /\
  contentLength (db w') = contentLength (db w) /\
  (pipe_done (pipe (db w')) = true ->
   pipe_done (pipe (db w)) = true \/ exists k, In (ClosesAfter k) (readers w)) /\
  (forall c, In c (readers w') -> In c (readers w)).


(** What [WriteHeader] logs when the length cannot be taken: the
    parse error, unless the header is empty. *)
Definition length_log (v : string) (err : option error) : list event :=
  match err with
  | Some e => if negb (v =? "")%string then [E_Log e] else []
  | None => []
  end.


(** ** Notions for the two goroutines *)

(** The effects of the constructing goroutine: the filter context, and
    what [newDelayed] does itself. No method of the sink has one. *)
Definition of_caller {X} (e : eff X) : bool :=
  match e with
  | Ctx_Request | Ctx_Serve _ | New_delayedBody _ | Go_ServeFile _
  | Recv_headerDone | Set_Body => true
  | _ => false
  end.

(** The effects that change the status code or the headers. *)
Definition sets_head {X} (e : eff X) : bool :=
  match e with
  | Set_StatusCode _ | Put_Header _ _ => true
  | _ => false
  end.

Definition is_Close_headerDone {X} (e : eff X) : bool :=
  match e with
  | Close_headerDone => true
  | _ => false
  end.

(** A program of the sink's side only. *)
Fixpoint sink_only {A} (p : prog A) : Prop :=
  match p with
  | Ret _ => True
  | Vis e k => of_caller e = false /\ forall x, sink_only (k x)
  end.

(** A program that leaves status code and headers alone. *)
Fixpoint quiet {A} (p : prog A) : Prop :=
  match p with
  | Ret _ => True
  | Vis e k => sets_head e = false /\ forall x, quiet (k x)
  end.

(** A program that leaves them alone once it has closed [headerDone]. *)
Fixpoint settling {A} (p : prog A) : Prop :=
  match p with
  | Ret _ => True
  | Vis e k =>
      if is_Close_headerDone e then forall x, quiet (k x)
      else forall x, settling (k x)
  end.

(** A program that closes [headerDone] before it returns, on every
    path, and leaves status code and headers alone from then on. *)
Fixpoint closes {A} (p : prog A) : Prop :=
  match p with
  | Ret _ => False
  | Vis e k =>
      if is_Close_headerDone e then forall x, quiet (k x)
      else forall x, closes (k x)
  end.

(** A program that does not close [headerDone]. *)
Fixpoint calm {A} (p : prog A) : Prop :=
  match p with
  | Ret _ => True
  | Vis e k => is_Close_headerDone e = false /\ forall x, calm (k x)
  end.

(** The producers that keep to the contract of [http.ResponseWriter]:
    once [WriteHeader] has been called they only write. *)
Fixpoint body_only (p : producer) : Prop :=
  match p with
  | P_return => True
  | P_Write _ next => forall r, body_only (next r)
  | P_Header _ _ _ | P_WriteHeader _ _ => False
  end.

Fixpoint conforms (p : producer) : Prop :=
  match p with
  | P_return => True
  | P_Header _ _ next => conforms next
  | P_WriteHeader _ next => body_only next
  | P_Write _ next => forall r, conforms (next r)
  end.

(** For a program that does nothing but serve and return: the value it
    returns and what [ctx.Serve] was last given, starting from [sv].
    [None] for a program that does anything else. *)
Fixpoint serves_and_returns {A} (c : prog A) (sv : option ResponsePtr)
  : option (A * option ResponsePtr) :=
  match c with
  | Ret a => Some (a, sv)
  | Vis e k =>
      match e in eff X return (X -> prog A) -> option (A * option ResponsePtr) with
      | Ctx_Serve r => fun k' => serves_and_returns (k' tt) (Some r)
      | _ => fun _ => None
      end k
  end.

(** The points the constructing goroutine passes in [newDelayed req p],
    called by something that goes on with [f]: before the [go]
    statement, before the receive, before [rsp.Body = db]. *)
Section Points.
Context {A : Type} (f : ResponsePtr -> prog A) (p : string).

Definition at_Body : prog A := Vis Set_Body (fun _ => f OfBridge).
Definition at_recv : prog A := Vis Recv_headerDone (fun _ => at_Body).
Definition at_go : prog A := Vis (Go_ServeFile p) (fun _ => at_recv).

End Points.

(** The invariant of the two goroutines while the first runs
    [newDelayed req p] and then [f], the producer being [pr0]. *)
Section Invariant.
Context {A : Type} (f : ResponsePtr -> prog A).
Context (req : http_Request) (p : string) (rs : list reader) (pr0 : producer).

(** What holds of the producer's program: it is of the sink's side, and
    if the producer keeps to the contract, it has left or will leave
    status code and headers alone once [headerDone] is closed. *)
Definition producer_inv (c : chan) (pr : prog unit) : Prop :=
  sink_only pr /\
  (conforms pr0 -> match c with Closed => quiet pr | Open => settling pr end).

Definition started_inv (w : world) : Prop :=
  started w = [p] /\ request (db w) = req /\ ctx_request w = req.

Definition inv_new (s : sys A) : Prop :=
  caller s = bind (newDelayed req p) f /\ producing s = None /\
  sworld s = world_init req rs.

Definition inv_go (s : sys A) : Prop :=
  caller s = at_go f p /\ producing s = None /\
  db (sworld s) = new_delayedBody req /\
  started (sworld s) = [] /\ served (sworld s) = None /\
  ctx_request (sworld s) = req.

Definition inv_recv (s : sys A) : Prop :=
  caller s = at_recv f /\
  (exists pr, producing s = Some pr /\
              producer_inv (headerDone (db (sworld s))) pr) /\
  started_inv (sworld s) /\ served (sworld s) = None /\
  rd (pipe (db (sworld s))) = [] /\ Body (response (db (sworld s))) = None.

Definition inv_Body (s : sys A) : Prop :=
  caller s = at_Body f /\
  (exists pr, producing s = Some pr /\ producer_inv Closed pr) /\
  headerDone (db (sworld s)) = Closed /\
  started_inv (sworld s) /\ served (sworld s) = None /\
  rd (pipe (db (sworld s))) = [] /\ Body (response (db (sworld s))) = None.

Definition inv_after (s : sys A) : Prop :=
  serves_and_returns (caller s) (served (sworld s))
  = serves_and_returns (f OfBridge) None /\
  (exists pr, producing s = Some pr /\ producer_inv Closed pr) /\
  headerDone (db (sworld s)) = Closed /\
  started_inv (sworld s) /\
  Body (response (db (sworld s))) = Some Delayed /\
  (returned (caller s) = false -> rd (pipe (db (sworld s))) = []).

Definition inv (s : sys A) : Prop :=
  inv_new s \/ inv_go s \/ inv_recv s \/ inv_Body s \/ inv_after s.

(** Status code and headers of [s'] are those of [s], and [headerDone]
    is still closed, provided it was closed in [s] and the producer
    keeps to the contract. *)
Definition head_kept (s s' : sys A) : Prop :=
  headerDone (db (sworld s)) = Closed -> conforms pr0 ->
  headerDone (db (sworld s')) = Closed /\
  StatusCode (response (db (sworld s'))) = StatusCode (response (db (sworld s))) /\
  Header (response (db (sworld s'))) = Header (response (db (sworld s))).

End Invariant.



(** ** A request to try things on

    The scenario of a file of ten bytes under [/var/www], asked for
    under the prefix [/static/]. *)
Definition example_StatusText (status : Z) : string :=
  if status =? 404 then "Not Found"
  else if status =? 304 then "Not Modified"
  else "OK".

Definition example_Join (a b : string) : string := a ++ "/" ++ b.

Definition example_request : http_Request := mkRequest "GET" "/static/img/a.png".

Definition example_filter : static := mkStatic "/static/" "/var/www".

(** The world of a bridge just built, with headers [h] put by the
    producer and a reader that will behave as [rs] says. *)
Definition example_world (req : http_Request) (h : gmap string (list string))
    (rs : list reader) : world :=
  mkWorld (constructed req h) req None [] rs [].

(** A producer that serves a file of ten bytes in two writes, and stops
    at the first write that fails. *)
Definition example_ServeFile (req : http_Request) (p : string) : producer :=
  P_Header "Content-Length" ["10"]
    (P_WriteHeader 200
       (P_Write (bytes "01234")
          (fun r => match snd r with
                    | Some _ => P_return
                    | None => P_Write (bytes "56789") (fun _ => P_return)
                    end))).

(** ** [static.CreateFilter] *)

(** [interface{}]: a string, or a value of some other dynamic type. *)
Inductive interface : Type :=
| I_string (s : string)
| I_int (z : Z)
| I_nil.

(** [v.(string)], with its [ok]. *)
Definition as_string (v : interface) : option string :=
  match v with
  | I_string s => Some s
  | _ => None
  end.

(** [fmt.Errorf] with one [%d]. *)
Definition Errorf_d (before : string) (n : nat) (after : string) : string :=
  (before ++ NilZero.string_of_uint (Nat.to_uint n) ++ after)%string.

(** [static.CreateFilter]: the filter, or the text of the error.
    [config[0]] and [config[1]] are read only when [len(config)] is 2. *)
Definition CreateFilter (config : list interface) : static + string :=
  if negb (length config =? 2)%nat then
    inr (Errorf_d "invalid number of args: " (length config) ", expected 1")
  else
    match as_string (nth 0 config I_nil) with
    | None => inr "invalid parameter type, expected string for web root prefix"
    | Some webRoot =>
        match as_string (nth 1 config I_nil) with
        | None => inr "invalid parameter type, expected string for path to root dir"
        | Some root => inl (mkStatic webRoot root)
        end
    end.

(** ** Notions for further properties *)

(** What [Write] leaves alone. *)
Definition Write_keeps (w w' : world) : Prop :=
  response (db w') = response (db w) /\
  headerDone (db w') = headerDone (db w) /\
  contentLength (db w') = contentLength (db w) /\
  request (db w') = request (db w) /\
  served w' = served w /\ started w' = started w.

(** What a producer leaves alone on a [HEAD] request. *)
Definition HEAD_kept (w w' : world) : Prop :=
  Method (request (db w')) = Method (request (db w)) /\
  rd (pipe (db w')) = rd (pipe (db w)).

(** The status code and the headers the producer hands over with its
    first [WriteHeader], if it gets that far: on a request that is not a
    [HEAD], a [Write] that comes first waits for a reader that is not
    there yet. *)
Fixpoint announced (head : bool) (pr : producer) (h : gmap string (list string))
  : option (Z * gmap string (list string)) :=
  match pr with
  | P_return => None
  | P_Header key vs next => announced head next (<[key := vs]> h)
  | P_WriteHeader status _ => Some (status, h)
  | P_Write _ next => if head then announced head (next (0, None)) h else None
  end.

(** Status code and headers at the moment a program of the sink's side,
    running with nobody at the read end, closes [headerDone]; [None] if
    it never does. *)
Fixpoint head_at_close (p : prog unit) (w : world)
  : option (Z * gmap string (list string)) :=
  match p with
  | Ret _ => None
  | Vis e k =>
      if is_Close_headerDone e then
        match headerDone (db w) with
        | Open => Some (StatusCode (response (db w)), Header (response (db w)))
        | Closed => None
        end
      else if is_Write e && negb (pipe_done (pipe (db w))) then None
      else
        match handle e w with
        | (Returns x, w') => head_at_close (k x) w'
        | _ => None
        end
  end.

(** While [headerDone] is open the producer is on its way to closing it
    with the head [t]; once it is closed the response carries [t]. *)
Definition head_inv {A} (t : Z * gmap string (list string)) (s : sys A) : Prop :=
  match producing s with
  | None => True
  | Some pr =>
      match headerDone (db (sworld s)) with
      | Open => head_at_close pr (sworld s) = Some t
      | Closed =>
          StatusCode (response (db (sworld s))) = fst t /\
          Header (response (db (sworld s))) = snd t
      end
  end.

(** [headerDone] is open and the producer will not close it. *)
Definition stuck_inv {A} (s : sys A) : Prop :=
  headerDone (db (sworld s)) = Open /\
  match producing s with
  | None => True
  | Some pr => head_at_close pr (sworld s) = None
  end.

(** * Proofs *)

Lemma run_bind {A B} (m : prog A) (f : A -> prog B) w :
  run (bind m f) w =
  match run m w with
  | (Returns a, w') => run (f a) w'
  | (Blocks, w') => (Blocks, w')
  | (Panics, w') => (Panics, w')
  end.
Proof.
  revert w. induction m as [a | X e k IH]; intros w; simpl; [reflexivity|].
  destruct (handle e w) as [[x | |] w']; auto.
Qed.

Lemma wrap_small z : - 2 ^ 63 <= z < 2 ^ 63 -> wrap z = z.
Proof.
  intros H. unfold wrap.
  rewrite Z.mod_small; lia.
Qed.

Lemma len_app a b : len (a ++ b) = len a + len b.
Proof. unfold len. rewrite length_app. lia. Qed.

Lemma len_nonneg a : 0 <= len a.
Proof. unfold len. lia. Qed.

Ltac world w :=
  destruct w as [[w_rq w_pth [w_sc w_hd w_bd] [w_re w_we w_rd] w_cl w_wr w_ch]
                 w_crq w_sv w_st w_rds w_tr];
  unfold has_body, set_db, set_response, set_pipe, set_contentLength,
    set_written, set_headerDone in *;
  simpl in *; subst.

Lemma Write_no_body d w :
  Method (request (db w)) = "HEAD" \/ 300 <= StatusCode (response (db w)) ->
  run (Write d) w = (Returns (0, None), w).
Proof.
  intros H. unfold Write, is_HEAD. simpl.
  destruct (String.eqb_spec (Method (request (db w))) "HEAD") as [E | E]; simpl.
  - reflexivity.
  - destruct H as [H | H]; [contradiction|].
    destruct (Z.leb_spec 300 (StatusCode (response (db w)))); [reflexivity | lia].
Qed.


Lemma Write_refused d w :
  has_body w -> pipe_done (pipe (db w)) = true ->
  run (Write d) w = (Returns (0, Some (writeCloseError (pipe (db w)))), refused d w).
Proof.
  intros [Hm Hs] Hd. unfold Write, is_HEAD, refused. world w.
  apply String.eqb_neq in Hm. rewrite Hm. simpl.
  destruct (Z.leb_spec 300 w_sc); [lia|]. simpl.
  unfold PipeWriter_Write. simpl. rewrite Hd. simpl. reflexivity.
Qed.

Lemma Write_uncounted d w :
  has_body w -> pipe_done (pipe (db w)) = false ->
  head (readers w) = Some Drains -> contentLength (db w) < 0 ->
  run (Write d) w = (Returns (len d, None), forwarded d w).
Proof.
  intros [Hm Hs] Hd Hr Hc. unfold Write, is_HEAD, forwarded. world w.
  apply String.eqb_neq in Hm. rewrite Hm. simpl.
  destruct (Z.leb_spec 300 w_sc); [lia|]. simpl.
  unfold PipeWriter_Write. simpl. rewrite Hd, Hr. simpl.
  destruct (Z.leb_spec 0 w_cl); [lia|]. simpl. reflexivity.
Qed.

Lemma Write_counted d w :
  has_body w -> pipe_done (pipe (db w)) = false ->
  head (readers w) = Some Drains -> 0 <= contentLength (db w) ->
  wrap (written (db w) + len d) < contentLength (db w) ->
  run (Write d) w = (Returns (len d, None), counted (len d) (forwarded d w)).
Proof.
  intros [Hm Hs] Hd Hr Hc Hw. unfold Write, is_HEAD, forwarded, counted. world w.
  apply String.eqb_neq in Hm. rewrite Hm. simpl.
  destruct (Z.leb_spec 300 w_sc); [lia|]. simpl.
  unfold PipeWriter_Write. simpl. rewrite Hd, Hr. simpl.
  destruct (Z.leb_spec 0 w_cl); [|lia]. simpl.
  destruct (Z.leb_spec w_cl (wrap (w_wr + len d))); [lia|]. simpl.
  reflexivity.
Qed.

Lemma Write_closing d w :
  has_body w -> pipe_done (pipe (db w)) = false ->
  head (readers w) = Some Drains -> 0 <= contentLength (db w) ->
  contentLength (db w) <= wrap (written (db w) + len d) ->
  run (Write d) w = (Returns (len d, None), closed (counted (len d) (forwarded d w))).
Proof.
  intros [Hm Hs] Hd Hr Hc Hw. unfold Write, is_HEAD, forwarded, counted, closed. world w.
  apply String.eqb_neq in Hm. rewrite Hm. simpl.
  destruct (Z.leb_spec 300 w_sc); [lia|]. simpl.
  unfold PipeWriter_Write. simpl. rewrite Hd, Hr. simpl.
  destruct (Z.leb_spec 0 w_cl); [|lia]. simpl.
  destruct (Z.leb_spec w_cl (wrap (w_wr + len d))); [|lia]. simpl.
  reflexivity.
Qed.

Lemma Writes_no_body ws w :
  Method (request (db w)) = "HEAD" \/ 300 <= StatusCode (response (db w)) ->
  run (Writes ws) w = (Returns (map (fun _ => (0, None)) ws), w).
Proof.
  intros H. induction ws as [| d ws IH]; [reflexivity|].
  cbn [Writes]. rewrite run_bind, (Write_no_body d w H), run_bind, IH. reflexivity.
Qed.

Lemma WriteHeader_no_body st status w :
  Method (request (db w)) = "HEAD" \/ 300 <= status < 400 ->
  headerDone (db w) = Open ->
  run (WriteHeader st status) w = (Returns tt, signalled (closed (assigned status w))).
Proof.
  intros H Ho. unfold WriteHeader, is_HEAD, signalled, closed, assigned. world w.
  destruct (String.eqb_spec (Method w_rq) "HEAD") as [E | E]; simpl.
  - reflexivity.
  - destruct H as [H | H]; [contradiction|].
    destruct (Z.leb_spec 300 status); [|lia].
    destruct (Z.ltb_spec status 400); [|lia]. reflexivity.
Qed.

(** C2. On a [HEAD] request, and on a status in [300,400), [WriteHeader]
    closes the write end of the pipe with [io.EOF] and only then closes
    [headerDone]; every later [Write] returns [(0, nil)] and leaves the
    world as it is; the reader gets no byte and reads [io.EOF]. *)
Theorem no_body_on_HEAD_or_redirect st status w :
  Method (request (db w)) = "HEAD" \/ 300 <= status < 400 ->
  headerDone (db w) = Open ->
  pipe (db w) = io_Pipe ->
  let w1 := signalled (closed (assigned status w)) in
  run (WriteHeader st status) w = (Returns tt, w1) /\
  trace w1 = trace w ++ [E_StatusCode status; E_CloseWithError (Some EOF); E_headerDone] /\
  (forall ws, run (Writes ws) w1 = (Returns (map (fun _ => (0, None)) ws), w1)) /\
  rd (pipe (db w1)) = [] /\
  (forall size, run (Read size) w1 = (Returns (0, Some EOF), w1)).
Proof.
  intros H Ho Hp w1. split; [apply WriteHeader_no_body; assumption|].
  split; [subst w1; simpl; rewrite <- !app_assoc; reflexivity|].
  split.
  { intros ws. apply Writes_no_body. subst w1. world w.
    destruct H as [H | H]; [left; assumption | right; lia]. }
  subst w1. world w. inversion Hp; subst. split; reflexivity.
Qed.

Lemma Writes_cons d ws :
  Writes (d :: ws) = bind (Write d) (fun r => bind (Writes ws) (fun rs => Ret (r :: rs))).
Proof. reflexivity. Qed.

Lemma total_len_cons d ws : total_len (d :: ws) = len d + total_len ws.
Proof. unfold total_len. simpl. apply len_app. Qed.

Lemma total_len_app a b : total_len (a ++ b) = total_len a + total_len b.
Proof. unfold total_len. rewrite concat_app. apply len_app. Qed.

Lemma total_len_nonneg ws : 0 <= total_len ws.
Proof. apply len_nonneg. Qed.

Lemma Writes_below ws : forall w rs,
  has_body w -> pipe_done (pipe (db w)) = false ->
  0 <= written (db w) ->
  written (db w) + total_len ws < contentLength (db w) <= maxInt ->
  readers w = repeat Drains (length ws) ++ rs ->
  exists w',
    run (Writes ws) w = (Returns (map (fun d => (len d, None)) ws), w') /\
    db w' = streamed ws (db w) /\ readers w' = rs.
Proof.
  induction ws as [| d ws IH]; intros w rs Hb Hd Hw Hc Hr.
  - exists w. split; [reflexivity|]. split; [|exact Hr].
    unfold streamed, total_len. world w. rewrite app_nil_r, Z.add_0_r. reflexivity.
  - rewrite total_len_cons in Hc.
    pose proof (len_nonneg d) as Hl. pose proof (total_len_nonneg ws) as Ht.
    assert (Hwrap : wrap (written (db w) + len d) = written (db w) + len d).
    { apply wrap_small. unfold maxInt in Hc. lia. }
    rewrite Writes_cons, run_bind, Write_counted; try assumption.
    + destruct (IH (counted (len d) (forwarded d w)) rs) as (w' & Hrun & Hdb & Hrs).
      * destruct Hb. split; world w; assumption.
      * world w. assumption.
      * unfold counted. simpl. rewrite Hwrap. lia.
      * unfold counted. simpl. rewrite Hwrap. world w. lia.
      * world w. reflexivity.
      * exists w'. rewrite run_bind, Hrun. split; [reflexivity|]. split; [|exact Hrs].
        rewrite Hdb. unfold streamed, counted. simpl. rewrite Hwrap.
        rewrite total_len_cons. world w. rewrite <- app_assoc.
        f_equal. lia.
    + rewrite Hr. reflexivity.
    + lia.
    + rewrite Hwrap. lia.
Qed.

Lemma Writes_refused ws : forall w,
  has_body w -> pipe_done (pipe (db w)) = true ->
  exists w',
    run (Writes ws) w
    = (Returns (map (fun _ => (0, Some (writeCloseError (pipe (db w))))) ws), w') /\
    db w' = db w.
Proof.
  induction ws as [| d ws IH]; intros w Hb Hd.
  - exists w. split; reflexivity.
  - rewrite Writes_cons, run_bind, Write_refused; try assumption.
    destruct (IH (refused d w)) as (w' & Hrun & Hdb); try assumption.
    exists w'. rewrite run_bind, Hrun. split; [reflexivity | exact Hdb].
Qed.

Arguments Header_Get : simpl never.
Arguments Atoi : simpl never.
Arguments wrap : simpl never.
Arguments bytes : simpl never.

Ltac not_HEAD Hm :=
  let E := fresh "E" in
  pose proof Hm as E; apply String.eqb_neq in E; rewrite E; clear E; simpl.

Lemma WriteHeader_sized st status cl w :
  Method (request (db w)) <> "HEAD" -> status < 300 ->
  Header_Get (Header (response (db w))) "Content-Encoding" = "" ->
  Atoi (Header_Get (Header (response (db w))) "Content-Length") = (cl, None) ->
  cl <> 0 ->
  headerDone (db w) = Open ->
  run (WriteHeader st status) w = (Returns tt, signalled (sized cl (assigned status w))).
Proof.
  intros Hm Hs Hce Hcl Hz Ho.
  unfold WriteHeader, is_HEAD, signalled, sized, assigned. world w.
  not_HEAD Hm.
  destruct (Z.leb_spec 300 status); [lia|].
  destruct (Z.leb_spec 400 status); [lia|]. simpl.
  rewrite Hce. simpl. rewrite Hcl. simpl.
  destruct (Z.eqb_spec cl 0); [contradiction|]. reflexivity.
Qed.

Lemma WriteHeader_encoded st status w :
  Method (request (db w)) <> "HEAD" -> status < 300 ->
  Header_Get (Header (response (db w))) "Content-Encoding" <> "" ->
  headerDone (db w) = Open ->
  run (WriteHeader st status) w = (Returns tt, signalled (sized (-1) (assigned status w))).
Proof.
  intros Hm Hs Hce Ho.
  unfold WriteHeader, is_HEAD, signalled, sized, assigned. world w.
  not_HEAD Hm.
  destruct (Z.leb_spec 300 status); [lia|].
  destruct (Z.leb_spec 400 status); [lia|]. simpl.
  apply String.eqb_neq in Hce. rewrite Hce. reflexivity.
Qed.

Lemma Writes_app a : forall b w ra rb w1 w2,
  run (Writes a) w = (Returns ra, w1) ->
  run (Writes b) w1 = (Returns rb, w2) ->
  run (Writes (a ++ b)) w = (Returns (ra ++ rb), w2).
Proof.
  induction a as [| d a IH]; intros b w ra rb w1 w2 Ha Hb.
  - simpl in Ha. inversion Ha; subst. exact Hb.
  - change ((d :: a) ++ b) with (d :: (a ++ b)).
    rewrite Writes_cons, run_bind in Ha |- *.
    destruct (run (Write d) w) as [[r | |] w0]; try discriminate.
    rewrite run_bind in Ha |- *.
    destruct (run (Writes a) w0) as [[ra' | |] w0'] eqn:Ea; try discriminate.
    simpl in Ha. inversion Ha; subst.
    rewrite (IH b w0 ra' rb w1 w2 Ea Hb). reflexivity.
Qed.

(** C1, amended. With a well-formed positive Content-Length [cl] and no
    Content-Encoding, and a reader that drains every write: the stream
    ends with the first write at which the running total reaches or
    passes [cl]. That write is forwarded whole, so the reader has read
    every byte written up to and including it (at least [cl] bytes, and
    exactly [cl] when the total hits [cl]) and then reads [io.EOF];
    every later write fails with [io.ErrClosedPipe] and forwards
    nothing. *)
Theorem Write_ends_stream_at_threshold st status cl req h pre d post rs size w :
  db w = constructed req h ->
  Method req <> "HEAD" -> status < 300 ->
  Header_Get h "Content-Encoding" = "" ->
  Atoi (Header_Get h "Content-Length") = (cl, None) ->
  0 < cl ->
  total_len pre < cl <= total_len (pre ++ [d]) ->
  total_len (pre ++ [d]) <= maxInt ->
  readers w = repeat Drains (length (pre ++ [d])) ++ rs ->
  exists w',
    run (bind (WriteHeader st status) (fun _ =>
         bind (Writes (pre ++ [d])) (fun r1 =>
         bind (Writes post) (fun r2 =>
         bind (Read size) (fun r => Ret (r1, r2, r)))))) w
    = (Returns (map (fun x => (len x, None)) (pre ++ [d]),
                map (fun _ => (0, Some ErrClosedPipe)) post,
                (0, Some EOF)), w') /\
    rd (pipe (db w')) = concat (pre ++ [d]) /\
    cl <= len (rd (pipe (db w'))) /\
    (total_len (pre ++ [d]) = cl -> len (rd (pipe (db w'))) = cl).
Proof.
  intros Hdb Hm Hs Hce Hcl Hpos Hcross Hmax Hr.
  rewrite total_len_app, total_len_cons in Hcross, Hmax.
  change (total_len []) with 0 in Hcross, Hmax.
  pose proof (total_len_nonneg pre) as Hpre. pose proof (len_nonneg d) as Hd.
  set (w1 := signalled (sized cl (assigned status w))).
  assert (H1 : run (WriteHeader st status) w = (Returns tt, w1)).
  { apply WriteHeader_sized; rewrite ?Hdb; simpl; try assumption; try reflexivity. lia. }
  assert (Hdb1 : db w1 = set_headerDone Closed
                   (set_contentLength cl
                      (set_response (fun r => mkResponse status (Header r) (Body r))
                                    (constructed req h)))).
  { subst w1. unfold signalled, sized, assigned, set_db. cbn [db]. rewrite Hdb. reflexivity. }
  assert (Hr1 : readers w1 = repeat Drains (length pre) ++ Drains :: rs).
  { subst w1. simpl. rewrite Hr, length_app, repeat_app, <- app_assoc. reflexivity. }
  destruct (Writes_below pre w1 (Drains :: rs)) as (w2 & H2 & Hdb2 & Hr2);
    [ | | | | exact Hr1 | ].
  { unfold has_body. rewrite Hdb1. simpl. split; assumption. }
  { rewrite Hdb1. reflexivity. }
  { rewrite Hdb1. simpl. lia. }
  { rewrite Hdb1. simpl. lia. }
  rewrite Hdb1 in Hdb2.
  set (w3 := closed (counted (len d) (forwarded d w2))).
  assert (Hwrap : wrap (total_len pre + len d) = total_len pre + len d).
  { apply wrap_small. unfold maxInt in Hmax. lia. }
  assert (H3 : run (Write d) w2 = (Returns (len d, None), w3)).
  { apply Write_closing.
    - unfold has_body. rewrite Hdb2. simpl. split; assumption.
    - rewrite Hdb2. reflexivity.
    - rewrite Hr2. reflexivity.
    - rewrite Hdb2. simpl. lia.
    - rewrite Hdb2. simpl. rewrite Z.add_0_l, Hwrap. lia. }
  assert (H3' : run (Writes [d]) w2 = (Returns [(len d, None)], w3)).
  { rewrite Writes_cons, run_bind, H3. reflexivity. }
  assert (Hdb3 : db w3 = set_pipe (fun _ => mkPipe None (Some EOF) (concat pre ++ d))
                   (set_written (total_len pre + len d) (db w2))).
  { subst w3. unfold closed, counted, forwarded, set_db. cbn [db].
    rewrite Hdb2. simpl. rewrite Z.add_0_l, Hwrap. reflexivity. }
  destruct (Writes_refused post w3) as (w4 & H4 & Hdb4).
  { unfold has_body. rewrite Hdb3, Hdb2. simpl. split; assumption. }
  { rewrite Hdb3. reflexivity. }
  assert (Hp4 : pipe (db w4) = mkPipe None (Some EOF) (concat pre ++ d)).
  { rewrite Hdb4, Hdb3. reflexivity. }
  rewrite Hdb3 in H4. simpl in H4.
  exists w4. split.
  - rewrite run_bind, H1, run_bind.
    rewrite (Writes_app pre [d] w1 _ _ w2 w3 H2 H3').
    rewrite run_bind, H4.
    unfold Read. simpl. unfold PipeReader_Read. rewrite Hp4. simpl.
    rewrite map_app. reflexivity.
  - rewrite Hp4. simpl. rewrite concat_app. simpl. rewrite app_nil_r.
    split; [reflexivity|]. rewrite len_app. fold (total_len pre). split; [lia|].
    intros E. rewrite total_len_app, total_len_cons in E.
    change (total_len []) with 0 in E. lia.
Qed.

(** C1 as stated fails: with [Content-Length: 5] and one [Write] of the
    eleven bytes of "hello world", the pipe forwards all eleven before
    the count is compared, and the reader has read eleven bytes, not
    five, when it meets [io.EOF]. *)
Lemma Write_overshoots_Content_Length :
  let h : gmap string (list string) := <["Content-Length" := ["5"]]> ∅ in
  let req := mkRequest "GET" "/a" in
  let w := mkWorld (constructed req h) req None [] [Drains] [] in
  let r := run (bind (WriteHeader (fun _ => "") 200) (fun _ =>
                bind (Write (bytes "hello world")) (fun r1 =>
                bind (Read 1) (fun r2 => Ret (r1, r2))))) w in
  Header_Get h "Content-Encoding" = "" /\
  Atoi (Header_Get h "Content-Length") = (5, None) /\
  fst r = Returns ((11, None), (0, Some EOF)) /\
  len (rd (pipe (db (snd r)))) = 11.
Proof. vm_compute. repeat split. Qed.

Lemma no_auto_close_refl w : has_body w -> no_auto_close w w.
Proof.
  intros Hb. split; [exists []; split; [rewrite app_nil_r|]; reflexivity|].
  repeat split; try assumption; try (apply Hb); auto.
Qed.

Lemma no_auto_close_trans w1 w2 w3 :
  no_auto_close w1 w2 -> no_auto_close w2 w3 -> no_auto_close w1 w3.
Proof.
  intros ((e1 & T1 & C1) & B1 & L1 & D1 & R1) ((e2 & T2 & C2) & B2 & L2 & D2 & R2).
  split.
  { exists (e1 ++ e2). rewrite T2, T1, app_assoc. split; [reflexivity|].
    clear - C1 C2. induction e1 as [| e e1 IH]; simpl in *; [assumption|].
    destruct (is_CloseWithError e); simpl in *; [discriminate | auto]. }
  split; [assumption|]. split; [congruence|]. split.
  - intros H3. destruct (D2 H3) as [H2 | (k & Hk)].
    + exact (D1 H2).
    + right. exists k. auto.
  - auto.
Qed.

Lemma Write_never_closes d w :
  has_body w -> contentLength (db w) < 0 ->
  no_auto_close w (snd (run (Write d) w)).
Proof.
  intros Hb Hc.
  destruct (pipe_done (pipe (db w))) eqn:Hd.
  { rewrite Write_refused by assumption. simpl.
    split; [eexists; split; [reflexivity|reflexivity]|].
    repeat split; try apply Hb; auto. }
  destruct (readers w) as [| [| k] rs] eqn:Hr.
  - assert (run (Write d) w = (Blocks, w)) as ->.
    { destruct Hb as [Hm Hs]. unfold Write, is_HEAD. world w. not_HEAD Hm.
      destruct (Z.leb_spec 300 w_sc); [lia|]. simpl.
      unfold PipeWriter_Write. rewrite Hd. reflexivity. }
    simpl. apply no_auto_close_refl, Hb.
  - rewrite Write_uncounted; try assumption; [|rewrite Hr; reflexivity].
    simpl. split; [eexists; split; [reflexivity|reflexivity]|].
    destruct Hb as [Hm Hs]. world w. repeat split; auto.
    all: intros c Hin; right; assumption.
  - destruct Hb as [Hm Hs]. unfold Write, is_HEAD. world w. not_HEAD Hm.
    destruct (Z.leb_spec 300 w_sc); [lia|]. simpl.
    unfold PipeWriter_Write. rewrite Hd. simpl.
    destruct ((Z.of_nat k <? len d) || (len d =? 0)); simpl.
    + split; [eexists; split; [reflexivity|reflexivity]|].
      unfold has_body. simpl. repeat split; auto;
        first [ intros _; right; exists k; left; reflexivity
              | intros c Hin; right; assumption ].
    + destruct (Z.leb_spec 0 w_cl); [lia|]. simpl.
      split; [eexists; split; [reflexivity|reflexivity]|].
      unfold has_body. simpl. repeat split; auto;
        first [ intros _; right; exists k; left; reflexivity
              | intros c Hin; right; assumption ].
Qed.

Lemma Writes_never_close ws : forall w,
  has_body w -> contentLength (db w) < 0 ->
  no_auto_close w (snd (run (Writes ws) w)).
Proof.
  induction ws as [| d ws IH]; intros w Hb Hc.
  - apply no_auto_close_refl, Hb.
  - rewrite Writes_cons, run_bind.
    pose proof (Write_never_closes d w Hb Hc) as H1.
    destruct (run (Write d) w) as [[r | |] w1]; simpl in H1; try exact H1.
    rewrite run_bind.
    assert (H2 : no_auto_close w1 (snd (run (Writes ws) w1))).
    { apply IH; [apply H1|]. destruct H1 as (_ & _ & -> & _). assumption. }
    destruct (run (Writes ws) w1) as [[rs | |] w2]; simpl in *;
      eapply no_auto_close_trans; eassumption.
Qed.

Lemma Writes_uncounted ws : forall w rs,
  has_body w -> pipe_done (pipe (db w)) = false ->
  contentLength (db w) < 0 ->
  readers w = repeat Drains (length ws) ++ rs ->
  exists w',
    run (Writes ws) w = (Returns (map (fun d => (len d, None)) ws), w') /\
    db w' = set_pipe (fun p => mkPipe (rerr p) (werr p) (rd p ++ concat ws)) (db w) /\
    readers w' = rs.
Proof.
  induction ws as [| d ws IH]; intros w rs Hb Hd Hc Hr.
  - exists w. split; [reflexivity|]. split; [|exact Hr].
    world w. rewrite app_nil_r. reflexivity.
  - rewrite Writes_cons, run_bind, Write_uncounted; try assumption;
      [|rewrite Hr; reflexivity].
    destruct (IH (forwarded d w) rs) as (w' & Hrun & Hdb & Hrs).
    + destruct Hb. split; world w; assumption.
    + world w. assumption.
    + world w. assumption.
    + world w. reflexivity.
    + exists w'. rewrite run_bind, Hrun. split; [reflexivity|]. split; [|exact Hrs].
      rewrite Hdb. world w. rewrite <- app_assoc. reflexivity.
Qed.

Lemma trace3 (tr : list event) a b c : ((tr ++ [a]) ++ [b]) ++ [c] = tr ++ [a; b; c].
Proof. rewrite <- !app_assoc. reflexivity. Qed.

(** C4. With a Content-Encoding header on a request that gets a body,
    [WriteHeader] sets [contentLength] to -1 and closes [headerDone]
    without touching the pipe. Whatever is written afterwards and
    whatever the reader does, no [Write] closes the pipe, and the pipe is
    closed afterwards only if it was before or the reader closed it. If
    the reader drains every write, all the bytes arrive and the next
    read waits: there is no end of stream. *)
Theorem Content_Encoding_never_auto_closes st status w :
  Method (request (db w)) <> "HEAD" -> status < 300 ->
  Header_Get (Header (response (db w))) "Content-Encoding" <> "" ->
  headerDone (db w) = Open ->
  let w1 := signalled (sized (-1) (assigned status w)) in
  run (WriteHeader st status) w = (Returns tt, w1) /\
  trace w1 = trace w ++ [E_StatusCode status; E_contentLength (-1); E_headerDone] /\
  contentLength (db w1) = -1 /\
  pipe (db w1) = pipe (db w) /\
  (forall ws,
     let w2 := snd (run (Writes ws) w1) in
     (exists evs, trace w2 = trace w1 ++ evs /\
                  count_events is_CloseWithError evs = O) /\
     (pipe_done (pipe (db w2)) = true ->
      pipe_done (pipe (db w)) = true \/ exists k, In (ClosesAfter k) (readers w))) /\
  (forall ws rs,
     pipe_done (pipe (db w)) = false ->
     readers w = repeat Drains (length ws) ++ rs ->
     exists w2,
       run (Writes ws) w1 = (Returns (map (fun d => (len d, None)) ws), w2) /\
       rd (pipe (db w2)) = rd (pipe (db w)) ++ concat ws /\
       forall size, run (Read size) w2 = (Blocks, w2)).
Proof.
  intros Hm Hs Hce Ho w1.
  assert (Hb1 : has_body w1) by (subst w1; world w; split; assumption).
  assert (Hc1 : contentLength (db w1) < 0) by (subst w1; world w; lia).
  split; [apply WriteHeader_encoded; assumption|].
  split; [subst w1; simpl; apply trace3|].
  split; [subst w1; world w; reflexivity|].
  split; [subst w1; world w; reflexivity|].
  split.
  - intros ws w2. destruct (Writes_never_close ws w1 Hb1 Hc1) as (T & _ & _ & D & _).
    split; [exact T|]. intros H2. fold w2 in D. specialize (D H2).
    subst w1. world w. exact D.
  - intros ws rs Hd Hr.
    destruct (Writes_uncounted ws w1 rs) as (w2 & Hrun & Hdb & _); try assumption.
    exists w2. split; [exact Hrun|]. rewrite Hdb. split.
    + subst w1. world w. reflexivity.
    + intros size. unfold Read. simpl. unfold PipeReader_Read. rewrite Hdb.
      subst w1. world w. unfold pipe_done in *. simpl in *. rewrite Hd. reflexivity.
Qed.

(** C10. A Content-Length that parses as a negative number [cl] (and no
    Content-Encoding): [WriteHeader] stores [cl] in [contentLength] and
    closes [headerDone] without closing the pipe, and from then on the
    bridge behaves as in the Content-Encoding case: no [Write] closes
    the pipe on a count. *)
Theorem negative_Content_Length_never_auto_closes st status cl w :
  Method (request (db w)) <> "HEAD" -> status < 300 ->
  Header_Get (Header (response (db w))) "Content-Encoding" = "" ->
  Atoi (Header_Get (Header (response (db w))) "Content-Length") = (cl, None) ->
  cl < 0 ->
  headerDone (db w) = Open ->
  let w1 := signalled (sized cl (assigned status w)) in
  run (WriteHeader st status) w = (Returns tt, w1) /\
  trace w1 = trace w ++ [E_StatusCode status; E_contentLength cl; E_headerDone] /\
  contentLength (db w1) = cl /\
  pipe (db w1) = pipe (db w) /\
  (forall ws,
     let w2 := snd (run (Writes ws) w1) in
     (exists evs, trace w2 = trace w1 ++ evs /\
                  count_events is_CloseWithError evs = O) /\
     (pipe_done (pipe (db w2)) = true ->
      pipe_done (pipe (db w)) = true \/ exists k, In (ClosesAfter k) (readers w))) /\
  (forall ws rs,
     pipe_done (pipe (db w)) = false ->
     readers w = repeat Drains (length ws) ++ rs ->
     exists w2,
       run (Writes ws) w1 = (Returns (map (fun d => (len d, None)) ws), w2) /\
       rd (pipe (db w2)) = rd (pipe (db w)) ++ concat ws /\
       forall size, run (Read size) w2 = (Blocks, w2)).
Proof.
  intros Hm Hs Hce Hcl Hneg Ho w1.
  assert (Hb1 : has_body w1) by (subst w1; world w; split; assumption).
  assert (Hc1 : contentLength (db w1) < 0) by (subst w1; world w; lia).
  split; [apply WriteHeader_sized; try assumption; lia|].
  split; [subst w1; simpl; apply trace3|].
  split; [subst w1; world w; reflexivity|].
  split; [subst w1; world w; reflexivity|].
  split.
  - intros ws w2. destruct (Writes_never_close ws w1 Hb1 Hc1) as (T & _ & _ & D & _).
    split; [exact T|]. intros H2. fold w2 in D. specialize (D H2).
    subst w1. world w. exact D.
  - intros ws rs Hd Hr.
    destruct (Writes_uncounted ws w1 rs) as (w2 & Hrun & Hdb & _); try assumption.
    exists w2. split; [exact Hrun|]. rewrite Hdb. split.
    + subst w1. world w. reflexivity.
    + intros size. unfold Read. simpl. unfold PipeReader_Read. rewrite Hdb.
      subst w1. world w. unfold pipe_done in *. simpl in *. rewrite Hd. reflexivity.
Qed.

Lemma WriteHeader_unknown st status cl err w :
  Method (request (db w)) <> "HEAD" -> status < 300 ->
  Header_Get (Header (response (db w))) "Content-Encoding" = "" ->
  Atoi (Header_Get (Header (response (db w))) "Content-Length") = (cl, err) ->
  cl = 0 \/ err <> None ->
  headerDone (db w) = Open ->
  exists w1,
    run (WriteHeader st status) w = (Returns tt, w1) /\
    trace w1 = trace w ++ E_StatusCode status
                 :: length_log (Header_Get (Header (response (db w))) "Content-Length") err
                 ++ [E_CloseWithError (Some EOF); E_headerDone] /\
    db w1 = set_headerDone Closed
              (set_pipe (PipeWriter_CloseWithError (Some EOF))
                 (set_response (fun r => mkResponse status (Header r) (Body r)) (db w))) /\
    readers w1 = readers w.
Proof.
  intros Hm Hs Hce Hcl Hz Ho.
  unfold WriteHeader, is_HEAD, length_log. world w.
  not_HEAD Hm.
  destruct (Z.leb_spec 300 status); [lia|].
  destruct (Z.leb_spec 400 status); [lia|]. simpl.
  rewrite Hce. simpl. rewrite Hcl. simpl.
  assert (Hbr : (cl =? 0) || isSome err = true).
  { destruct Hz as [-> | Hz]; [reflexivity|].
    destruct err; [apply orb_true_r | contradiction]. }
  rewrite Hbr. clear Hbr.
  destruct err as [e |]; simpl.
  - destruct (Header_Get w_hd "Content-Length" =? "")%string; simpl;
      eexists; (split; [reflexivity|]); simpl; rewrite <- !app_assoc;
      repeat split.
  - eexists; (split; [reflexivity|]); simpl; rewrite <- !app_assoc; repeat split.
Qed.

(** C5. No Content-Encoding, and a Content-Length that is absent, zero
    or not a number: [WriteHeader] closes the pipe with [io.EOF], then
    closes [headerDone] (having logged the parse error of a header that
    is there but malformed). Every later [Write] is refused by the closed
    pipe, the reader gets no byte and reads [io.EOF]. *)
Theorem unknown_length_gives_empty_body st status w :
  Method (request (db w)) <> "HEAD" -> status < 300 ->
  Header_Get (Header (response (db w))) "Content-Encoding" = "" ->
  (let v := Header_Get (Header (response (db w))) "Content-Length" in
   Header (response (db w)) !! "Content-Length" = None \/
   Atoi v = (0, None) \/
   snd (Atoi v) <> None) ->
  headerDone (db w) = Open ->
  pipe (db w) = io_Pipe ->
  exists logs w1,
    run (WriteHeader st status) w = (Returns tt, w1) /\
    trace w1 = trace w ++ E_StatusCode status :: logs
                 ++ [E_CloseWithError (Some EOF); E_headerDone] /\
    count_events is_Log logs = length logs /\
    pipe (db w1) = mkPipe None (Some EOF) [] /\
    forall ws, exists w2,
      run (Writes ws) w1 = (Returns (map (fun _ => (0, Some ErrClosedPipe)) ws), w2) /\
      pipe (db w2) = mkPipe None (Some EOF) [] /\
      forall size, run (Read size) w2 = (Returns (0, Some EOF), w2).
Proof.
  intros Hm Hs Hce Hcl Ho Hp.
  destruct (Atoi (Header_Get (Header (response (db w))) "Content-Length"))
    as [cl err] eqn:Ea.
  assert (Hz : cl = 0 \/ err <> None).
  { cbv zeta in Hcl. destruct Hcl as [Habs | [Hzero | Hbad]].
    - right. unfold Header_Get in Ea. rewrite Habs in Ea.
      vm_compute in Ea. inversion Ea. discriminate.
    - left. rewrite Ea in Hzero. congruence.
    - right. rewrite Ea in Hbad. exact Hbad. }
  destruct (WriteHeader_unknown st status cl err w Hm Hs Hce Ea Hz Ho)
    as (w1 & Hrun & Htr & Hdb & _).
  assert (Hp1 : pipe (db w1) = mkPipe None (Some EOF) []).
  { rewrite Hdb. world w. rewrite Hp. reflexivity. }
  exists (length_log (Header_Get (Header (response (db w))) "Content-Length") err), w1.
  split; [exact Hrun|]. split; [exact Htr|]. split.
  { unfold length_log. destruct err; [|reflexivity].
    destruct (negb _); reflexivity. }
  split; [exact Hp1|].
  intros ws. destruct (Writes_refused ws w1) as (w2 & H2 & Hdb2).
  { unfold has_body. rewrite Hdb. world w. split; assumption. }
  { rewrite Hp1. reflexivity. }
  rewrite Hp1 in H2. exists w2. split; [exact H2|].
  rewrite Hdb2. split; [exact Hp1|].
  intros size. unfold Read. simpl. unfold PipeReader_Read. rewrite Hdb2, Hp1.
  reflexivity.
Qed.

(** C3 as stated fails in its last clause: when the write of the reason
    phrase fails because the reader gave the body up, the error is
    logged and the write end is closed, but a read then answers
    [io.ErrClosedPipe], not [io.EOF]. *)
Lemma error_status_reader_closed :
  let req := mkRequest "GET" "/missing" in
  let w := mkWorld (constructed req ∅) req None [] [ClosesAfter 2] [] in
  let r := run (bind (WriteHeader (fun _ => "Not Found") 404) (fun _ => Read 1)) w in
  fst r = Returns (0, Some ErrClosedPipe) /\
  trace (snd r) = [E_StatusCode 404; E_headerDone;
                   E_Write (bytes "Not Found") 2 (Some ErrClosedPipe);
                   E_Log ErrClosedPipe; E_CloseWithError (Some EOF)] /\
  fst r <> Returns (0, Some EOF).
Proof. vm_compute. repeat split. discriminate. Qed.

(** C3, amended. On a status of 400 or more (not [HEAD]) [WriteHeader]
    closes [headerDone] first, then writes [StatusText status] into the
    pipe, logs the error if that write fails, and closes the write end
    with [io.EOF] in either case. A reader that drains the pipe gets the
    reason phrase; afterwards a read answers [io.EOF] if the read end is
    still open and [io.ErrClosedPipe] if the reader had closed it. *)
Theorem error_status_sends_reason_phrase st status c rs w :
  Method (request (db w)) <> "HEAD" -> 400 <= status ->
  headerDone (db w) = Open ->
  pipe_ok (pipe (db w)) ->
  readers w = c :: rs ->
  exists n err w1,
    run (WriteHeader st status) w = (Returns tt, w1) /\
    trace w1 = trace w ++ [E_StatusCode status; E_headerDone;
                           E_Write (bytes (st status)) n err]
                 ++ match err with Some e => [E_Log e] | None => [] end
                 ++ [E_CloseWithError (Some EOF)] /\
    werr (pipe (db w1)) = Some EOF /\
    (err = None ->
     n = len (bytes (st status)) /\
     rd (pipe (db w1)) = rd (pipe (db w)) ++ bytes (st status)) /\
    (pipe_done (pipe (db w)) = false -> c = Drains ->
     err = None /\ rerr (pipe (db w1)) = None) /\
    forall size,
      run (Read size) w1
      = (Returns (0, Some (if isSome (rerr (pipe (db w1)))
                           then ErrClosedPipe else EOF)), w1).
Proof.
  intros Hm Hs Ho [Hw Hr] Hrs.
  unfold WriteHeader, is_HEAD, Read. world w.
  not_HEAD Hm.
  destruct (Z.leb_spec 300 status); [|lia].
  destruct (Z.ltb_spec status 400); [lia|].
  destruct (Z.leb_spec 400 status); [|lia]. simpl.
  unfold PipeWriter_Write, PipeReader_Read, pipe_done, writeCloseError,
    readCloseError, PipeWriter_CloseWithError, PipeReader_CloseWithError.
  simpl.
  destruct Hw as [-> | ->], Hr as [-> | ->]; simpl.
  - destruct c as [| k]; simpl.
    + exists (len (bytes (st status))), None. eexists.
      split; [reflexivity|]. simpl. rewrite <- !app_assoc.
      repeat split; reflexivity.
    + destruct ((Z.of_nat k <? len (bytes (st status)))
                || (len (bytes (st status)) =? 0)) eqn:Ek; simpl.
      * exists (len (take k (bytes (st status)))), (Some ErrClosedPipe). eexists.
        split; [reflexivity|]. simpl. rewrite <- !app_assoc.
        repeat split; try reflexivity; discriminate.
      * exists (len (bytes (st status))), None. eexists.
        split; [reflexivity|]. simpl. rewrite <- !app_assoc.
        apply orb_false_iff in Ek. destruct Ek as [Ek _].
        apply Z.ltb_ge in Ek.
        repeat split; try reflexivity; try discriminate.
        rewrite take_ge; [reflexivity|]. unfold len in Ek. lia.
  - exists 0, (Some ErrClosedPipe). eexists.
    split; [reflexivity|]. simpl. rewrite <- !app_assoc.
    repeat split; try reflexivity; discriminate.
  - exists 0, (Some ErrClosedPipe). eexists.
    split; [reflexivity|]. simpl. rewrite <- !app_assoc.
    repeat split; try reflexivity; discriminate.
  - exists 0, (Some ErrClosedPipe). eexists.
    split; [reflexivity|]. simpl. rewrite <- !app_assoc.
    repeat split; try reflexivity; discriminate.
Qed.

Ltac branch :=
  match goal with
  | |- context [if ?b then _ else _] => destruct b eqn:?; simpl
  | |- context [Atoi ?v] => destruct (Atoi v) eqn:?; simpl
  | |- context [match ?x with Some _ => _ | None => _ end] => destruct x eqn:?; simpl
  | |- context [match ?x with [] => _ | _ :: _ => _ end] => destruct x eqn:?; simpl
  | |- context [match ?x with Drains => _ | ClosesAfter _ => _ end] => destruct x eqn:?; simpl
  end.

(** C8. One call of [WriteHeader] on a bridge whose [headerDone] is
    open: the first thing it does is assign the status code, and on
    every path (whatever the method, the status, the headers, the state
    of the pipe and the reader, even when the write of the reason phrase
    never returns) [headerDone] is closed exactly once, without panic. *)
Theorem headerDone_closed_once st status w :
  headerDone (db w) = Open ->
  let r := run (WriteHeader st status) w in
  fst r <> Panics /\
  headerDone (db (snd r)) = Closed /\
  StatusCode (response (db (snd r))) = status /\
  exists evs,
    trace (snd r) = trace w ++ E_StatusCode status :: evs /\
    count_events is_headerDone evs = 1%nat.
Proof.
  intros Ho. unfold WriteHeader, is_HEAD. world w.
  repeat first
    [ branch
    | progress (unfold PipeWriter_Write, PipeWriter_CloseWithError,
                  PipeReader_CloseWithError; simpl) ].
  all: (split; [discriminate|]); (split; [reflexivity|]); (split; [reflexivity|]);
    eexists; (split; [rewrite <- ?app_assoc; reflexivity | reflexivity]).
Qed.

Lemma Close_tears_down w : run Close w = (Returns None, torn_down w).
Proof. reflexivity. Qed.

(** C9 as stated fails: after the count closed the pipe a read answers
    [io.EOF], but after [Close] a read answers [io.ErrClosedPipe]. *)
Lemma Close_after_auto_close :
  let h : gmap string (list string) := <["Content-Length" := ["5"]]> ∅ in
  let req := mkRequest "GET" "/a" in
  let w := mkWorld (constructed req h) req None [] [Drains] [] in
  let r := run (bind (WriteHeader (fun _ => "") 200) (fun _ =>
                bind (Write (bytes "hello")) (fun _ =>
                bind (Read 1) (fun r1 =>
                bind Close (fun c1 =>
                bind (Read 1) (fun r2 => Ret (r1, c1, r2))))))) w in
  fst r = Returns ((0, Some EOF), None, (0, Some ErrClosedPipe)) /\
  Some ErrClosedPipe <> Some EOF.
Proof. vm_compute. split; [reflexivity | discriminate]. Qed.

Lemma Read_closed size w :
  pipe_done (pipe (db w)) = true ->
  run (Read size) w = (Returns (0, Some (readCloseError (pipe (db w)))), w).
Proof.
  intros H. unfold Read, call. cbn [run handle]. unfold PipeReader_Read.
  rewrite H. reflexivity.
Qed.

Lemma pipe_torn_down w :
  pipe (db (torn_down w))
  = PipeWriter_CloseWithError None (PipeReader_CloseWithError None (pipe (db w))).
Proof. destruct w as [[] ? ? ? ? ?]. reflexivity. Qed.

Lemma pipe_closed w :
  pipe (db (closed w)) = PipeWriter_CloseWithError (Some EOF) (pipe (db w)).
Proof. destruct w as [[] ? ? ? ? ?]. reflexivity. Qed.

Lemma teardown_twice p :
  PipeWriter_CloseWithError None (PipeReader_CloseWithError None
    (PipeWriter_CloseWithError None (PipeReader_CloseWithError None p)))
  = PipeWriter_CloseWithError None (PipeReader_CloseWithError None p).
Proof. destruct p as [[?|] [?|] ?]; reflexivity. Qed.

Lemma db_torn_down w :
  db (torn_down w)
  = set_pipe (fun p => PipeWriter_CloseWithError None (PipeReader_CloseWithError None p))
             (db w).
Proof. destruct w as [[] ? ? ? ? ?]. reflexivity. Qed.

(** C9, amended. [Close] returns nil and never panics, on any bridge:
    called twice, the second call changes nothing in the bridge; called
    after the write end was closed with [io.EOF], it leaves the pipe as
    a first [Close] would. After [Close] every read answers
    [io.ErrClosedPipe] with no bytes; after a close of the write end
    alone it answers [io.EOF]. *)
Theorem Close_is_idempotent w :
  pipe_ok (pipe (db w)) ->
  run Close w = (Returns None, torn_down w) /\
  run Close (torn_down w) = (Returns None, torn_down (torn_down w)) /\
  db (torn_down (torn_down w)) = db (torn_down w) /\
  run Close (closed w) = (Returns None, torn_down (closed w)) /\
  pipe (db (torn_down (closed w))) = pipe (db (torn_down w)) /\
  (forall size,
     run (Read size) (torn_down w) = (Returns (0, Some ErrClosedPipe), torn_down w)) /\
  (forall size,
     run (Read size) (torn_down (torn_down w))
     = (Returns (0, Some ErrClosedPipe), torn_down (torn_down w))) /\
  (forall size,
     run (Read size) (closed w)
     = (Returns (0, Some (if isSome (rerr (pipe (db w)))
                          then ErrClosedPipe else EOF)), closed w)).
Proof.
  intros [Hw Hr].
  split; [apply Close_tears_down|]. split; [apply Close_tears_down|].
  split.
  { rewrite !db_torn_down. destruct (db w) as [? ? ? p ? ? ?].
    unfold set_pipe. simpl. rewrite teardown_twice. reflexivity. }
  split; [apply Close_tears_down|].
  split.
  { rewrite !pipe_torn_down, pipe_closed.
    destruct (pipe (db w)) as [re we r]. cbn [werr rerr] in Hw, Hr.
    destruct Hw as [-> | ->], Hr as [-> | ->]; reflexivity. }
  assert (Ht : forall v, pipe_done (pipe (db (torn_down v))) = true
                         /\ readCloseError (pipe (db (torn_down v))) = ErrClosedPipe).
  { intros v. rewrite pipe_torn_down. destruct (pipe (db v)) as [[?|] [?|] ?]; split; reflexivity. }
  split.
  { intros size. destruct (Ht w) as [Hd He]. rewrite Read_closed, He; auto. }
  split.
  { intros size. destruct (Ht (torn_down w)) as [Hd He]. rewrite Read_closed, He; auto. }
  intros size. rewrite Read_closed.
  - rewrite pipe_closed. destruct (pipe (db w)) as [re we r]. cbn [werr rerr] in *.
    destruct Hw as [-> | ->], Hr as [-> | ->]; reflexivity.
  - rewrite pipe_closed. destruct (pipe (db w)) as [[?|] [?|] ?]; reflexivity.
Qed.

(** ** The two goroutines *)

Lemma sink_only_bind {A B} (m : prog A) (f : A -> prog B) :
  sink_only m -> (forall a, sink_only (f a)) -> sink_only (bind m f).
Proof.
  intros Hm Hf. induction m as [a | X e k IH]; simpl in *; [apply Hf|].
  destruct Hm as [He Hk]. split; [exact He|]. intros x. apply IH, Hk.
Qed.

Lemma quiet_bind {A B} (m : prog A) (f : A -> prog B) :
  quiet m -> (forall a, quiet (f a)) -> quiet (bind m f).
Proof.
  intros Hm Hf. induction m as [a | X e k IH]; simpl in *; [apply Hf|].
  destruct Hm as [He Hk]. split; [exact He|]. intros x. apply IH, Hk.
Qed.

Lemma settling_bind_calm {A B} (m : prog A) (f : A -> prog B) :
  calm m -> (forall a, settling (f a)) -> settling (bind m f).
Proof.
  intros Hm Hf. induction m as [a | X e k IH]; simpl in *; [apply Hf|].
  destruct Hm as [He Hk]. rewrite He. intros x. apply IH, Hk.
Qed.

Lemma settling_bind_closes {A B} (m : prog A) (f : A -> prog B) :
  closes m -> (forall a, quiet (f a)) -> settling (bind m f).
Proof.
  intros Hm Hf. induction m as [a | X e k IH]; simpl in *; [contradiction|].
  destruct (is_Close_headerDone e).
  - intros x. apply quiet_bind; [apply Hm | exact Hf].
  - intros x. apply IH, Hm.
Qed.

Ltac paths :=
  repeat first
    [ progress simpl
    | progress intros
    | match goal with
      | |- _ /\ _ => split
      | |- True => exact I
      | |- ?a = ?a => reflexivity
      | x : (_ * _)%type |- _ => destruct x
      | x : unit |- _ => destruct x
      | |- context [if ?b then _ else _] => destruct b
      | |- context [match ?x with Some _ => _ | None => _ end] => destruct x
      | |- context [Atoi ?v] => destruct (Atoi v)
      end ].

Lemma Write_sink_only d : sink_only (Write d).
Proof. unfold Write, is_HEAD, call. paths. Qed.

Lemma Write_quiet d : quiet (Write d).
Proof. unfold Write, is_HEAD, call. paths. Qed.

Lemma Write_calm d : calm (Write d).
Proof. unfold Write, is_HEAD, call. paths. Qed.

Lemma WriteHeader_sink_only st status : sink_only (WriteHeader st status).
Proof. unfold WriteHeader, is_HEAD, call. paths. Qed.

Lemma WriteHeader_closes st status : closes (WriteHeader st status).
Proof. unfold WriteHeader, is_HEAD, call. paths. Qed.

Lemma producer_sink_only st pr : sink_only (producer_prog st pr).
Proof.
  induction pr as [| key vs next IH | status next IH | data next IH];
    cbn [producer_prog].
  - exact I.
  - simpl. split; [reflexivity|]. intros _. exact IH.
  - apply sink_only_bind; [apply WriteHeader_sink_only | intros _; exact IH].
  - apply sink_only_bind; [apply Write_sink_only | exact IH].
Qed.

Lemma body_only_quiet st pr : body_only pr -> quiet (producer_prog st pr).
Proof.
  induction pr as [| key vs next IH | status next IH | data next IH];
    cbn [producer_prog body_only]; intros H; try contradiction.
  - exact I.
  - apply quiet_bind; [apply Write_quiet | intros r; apply IH, H].
Qed.

Lemma conforms_settling st pr : conforms pr -> settling (producer_prog st pr).
Proof.
  induction pr as [| key vs next IH | status next IH | data next IH];
    cbn [producer_prog conforms]; intros H.
  - exact I.
  - simpl. intros _. apply IH, H.
  - apply settling_bind_closes; [apply WriteHeader_closes|].
    intros _. apply body_only_quiet, H.
  - apply settling_bind_calm; [apply Write_calm | intros r; apply IH, H].
Qed.

(** What an effect of the sink's side leaves as it is. *)
Lemma handle_sink {X} (e : eff X) w o w' :
  of_caller e = false ->
  handle e w = (o, w') ->
  served w' = served w /\ started w' = started w /\
  ctx_request w' = ctx_request w /\
  Body (response (db w')) = Body (response (db w)) /\
  request (db w') = request (db w) /\
  (headerDone (db w) = Closed -> headerDone (db w') = Closed) /\
  (is_Close_headerDone e = false -> headerDone (db w') = headerDone (db w)) /\
  (is_Close_headerDone e = true -> o <> Blocks /\ (o <> Panics -> headerDone (db w') = Closed)) /\
  (sets_head e = false ->
   StatusCode (response (db w')) = StatusCode (response (db w)) /\
   Header (response (db w')) = Header (response (db w))) /\
  (is_Write e && negb (pipe_done (pipe (db w))) = false ->
   rd (pipe (db w')) = rd (pipe (db w))) /\
  (o = Panics \/ o = Blocks -> w' = w).
Proof.
  intros Hc H.
  destruct w as [[rq pth [sc hd bd] [re we r] cl wr ch] crq sv stt rds tr].
  destruct e; try discriminate Hc;
    unfold handle, PipeWriter_Write, PipeReader_Read, pipe_done,
      PipeWriter_CloseWithError, PipeReader_CloseWithError in *;
    simpl in *;
    destruct re, we, ch; simpl in *;
    try (destruct rds as [| [| k] rds]; simpl in *;
         try destruct ((Z.of_nat k <? len data) || (len data =? 0)));
    inversion H; subst; simpl; repeat split; intros;
    try discriminate; try congruence; auto;
    match goal with
    | H : _ \/ _ |- _ => destruct H; discriminate
    end.
Qed.

Section Steps.
Context (st : Z -> string) (sf : http_Request -> string -> producer).
Context {A : Type} (f : ResponsePtr -> prog A).
Context (req : http_Request) (p : string) (rs : list reader).
Hypothesis f_serves : serves_and_returns (f OfBridge) None <> None.

Let pr0 := sf req p.

(** One step of the producer, from a state where it runs a program of
    the sink's side. *)
Lemma step_producer_keeps (s : sys A) pr :
  producing s = Some pr ->
  producer_inv pr0 (headerDone (db (sworld s))) pr ->
  let s' := step_producer s in
  caller s' = caller s /\
  (exists pr', producing s' = Some pr' /\
               producer_inv pr0 (headerDone (db (sworld s'))) pr') /\
  served (sworld s') = served (sworld s) /\
  started (sworld s') = started (sworld s) /\
  ctx_request (sworld s') = ctx_request (sworld s) /\
  Body (response (db (sworld s'))) = Body (response (db (sworld s))) /\
  request (db (sworld s')) = request (db (sworld s)) /\
  (headerDone (db (sworld s)) = Closed -> headerDone (db (sworld s')) = Closed) /\
  (returned (caller s) = false ->
   rd (pipe (db (sworld s'))) = rd (pipe (db (sworld s)))) /\
  (headerDone (db (sworld s)) = Closed -> conforms pr0 ->
   StatusCode (response (db (sworld s'))) = StatusCode (response (db (sworld s))) /\
   Header (response (db (sworld s'))) = Header (response (db (sworld s)))).
Proof.
  intros Hpr Hinv s'. subst s'. unfold step_producer.
  assert (Hid : caller s = caller s /\
    (exists pr', producing s = Some pr' /\
                 producer_inv pr0 (headerDone (db (sworld s))) pr') /\
    served (sworld s) = served (sworld s) /\
    started (sworld s) = started (sworld s) /\
    ctx_request (sworld s) = ctx_request (sworld s) /\
    Body (response (db (sworld s))) = Body (response (db (sworld s))) /\
    request (db (sworld s)) = request (db (sworld s)) /\
    (headerDone (db (sworld s)) = Closed -> headerDone (db (sworld s)) = Closed) /\
    (returned (caller s) = false ->
     rd (pipe (db (sworld s))) = rd (pipe (db (sworld s)))) /\
    (headerDone (db (sworld s)) = Closed -> conforms pr0 ->
     StatusCode (response (db (sworld s))) = StatusCode (response (db (sworld s))) /\
     Header (response (db (sworld s))) = Header (response (db (sworld s))))).
  { split; [reflexivity|]. split; [exists pr; split; assumption|].
    repeat split; auto. }
  destruct (panicked s); [exact Hid|].
  rewrite Hpr. destruct pr as [a | X e k]; [exact Hid|].
  destruct (is_Write e && negb (pipe_done (pipe (db (sworld s))))
            && negb (returned (caller s))) eqn:Hg; [exact Hid|].
  destruct Hinv as [[Hsink Hk] Hconf]. simpl in Hsink, Hk.
  destruct (handle e (sworld s)) as [o w'] eqn:Hh.
  destruct (handle_sink e (sworld s) o w' Hsink Hh)
    as (Hsv & Hst & Hrq & Hbd & Hreq & Hcl & Hsame & Hclose & Hhead & Hrd & Hstuck).
  destruct o as [x | |].
  - simpl. split; [reflexivity|]. split.
    { exists (k x). split; [reflexivity|]. split; [apply Hk|].
      intros Hc. specialize (Hconf Hc). simpl in Hconf.
      destruct (headerDone (db (sworld s))) eqn:Hch.
      - destruct (is_Close_headerDone e) eqn:Hic.
        + destruct (Hclose eq_refl) as [_ Hnow]. rewrite Hnow by discriminate.
          apply Hconf.
        + rewrite (Hsame eq_refl). apply Hconf.
      - rewrite (Hcl eq_refl). apply Hconf. }
    repeat split; auto.
    + intros Hret. apply Hrd. rewrite Hret in Hg. simpl in Hg.
      rewrite andb_true_r in Hg. exact Hg.
    + apply Hhead. rewrite H in Hconf. apply (Hconf H0).
    + apply Hhead. rewrite H in Hconf. apply (Hconf H0).
  - rewrite (Hstuck (or_intror eq_refl)) in *. exact Hid.
  - simpl. rewrite (Hstuck (or_introl eq_refl)) in *.
    split; [reflexivity|]. split; [exists (Vis e k); split; [reflexivity|]|].
    { split; [split; assumption | exact Hconf]. }
    repeat split; auto.
Qed.

Lemma step_producer_idle (s : sys A) :
  producing s = None -> step_producer s = s.
Proof.
  intros H. unfold step_producer. rewrite H. destruct (panicked s); reflexivity.
Qed.

Lemma head_kept_refl (s : sys A) : head_kept pr0 s s.
Proof. intros H _. repeat split; assumption. Qed.

Lemma step_inv (s : sys A) g :
  inv f req p rs pr0 s ->
  inv f req p rs pr0 (sys_step st sf s g) /\ head_kept pr0 s (sys_step st sf s g).
Proof.
  intros Hinv. destruct g; simpl.
  - (* the constructing goroutine *)
    unfold step_caller. destruct (panicked s) eqn:Hp;
      [split; [exact Hinv | apply head_kept_refl]|].
    destruct Hinv as [H | [H | [H | [H | H]]]].
    + destruct H as (Hc & Hpr & Hw). rewrite Hc, Hw. simpl. split.
      * right; left. repeat split; try reflexivity. exact Hpr.
      * intros Hcl. rewrite Hw in Hcl. discriminate.
    + destruct H as (Hc & Hpr & Hdb & Hst & Hsv & Hrq). rewrite Hc. simpl. split.
      * right; right; left. rewrite Hdb, Hst. simpl.
        split; [reflexivity|]. split.
        { eexists. split; [reflexivity|]. split; [apply producer_sink_only|].
          intros Hconf. apply conforms_settling. exact Hconf. }
        repeat split; auto.
      * intros Hcl. rewrite Hdb in Hcl. discriminate.
    + pose proof H as H0.
      destruct H as (Hc & (pr & Hpr & Hpi) & Hst & Hsv & Hrd & Hbd).
      rewrite Hc. simpl.
      destruct (headerDone (db (sworld s))) eqn:Hch.
      * split; [|apply head_kept_refl]. right; right; left. exact H0.
      * split.
        { right; right; right; left. unfold inv_Body. simpl.
          split; [reflexivity|]. split; [exists pr; split; assumption|].
          repeat split; auto; apply Hst. }
        { intros _ _. simpl. repeat split; auto. }
    + destruct H as (Hc & (pr & Hpr & Hpi) & Hch & Hst & Hsv & Hrd & Hbd).
      rewrite Hc. simpl. split.
      * right; right; right; right. unfold inv_after. simpl.
        rewrite Hsv. split; [reflexivity|].
        split; [exists pr; split; assumption|].
        destruct (sworld s) as [[? ? [? ? ?] ? ? ? ?] ? ? ? ? ?]; simpl in *.
        repeat split; auto; apply Hst.
      * intros _ _. destruct (sworld s) as [[? ? [? ? ?] ? ? ? ?] ? ? ? ? ?]; simpl in *.
        repeat split; auto.
    + destruct H as (Hc & (pr & Hpr & Hpi) & Hch & Hst & Hbd & Hrd).
      destruct (caller s) as [a | X e k] eqn:Hcs.
      * split; [|apply head_kept_refl]. right; right; right; right.
        unfold inv_after. rewrite Hcs. repeat split; auto; try apply Hst.
        exists pr. split; assumption.
      * destruct e; simpl in Hc; try (symmetry in Hc; contradiction).
        simpl. split.
        { right; right; right; right. unfold inv_after. simpl.
          split; [exact Hc|]. split; [exists pr; split; assumption|].
          repeat split; auto; try apply Hst;
            try (intros _; apply Hrd; reflexivity). }
        { intros _ _. simpl. repeat split; auto. }
  - (* the producer *)
    destruct Hinv as [H | [H | [H | [H | H]]]].
    + rewrite step_producer_idle by apply H.
      split; [left; exact H | apply head_kept_refl].
    + rewrite step_producer_idle by apply H.
      split; [right; left; exact H | apply head_kept_refl].
    + destruct H as (Hc & (pr & Hpr & Hpi) & Hst & Hsv & Hrd & Hbd).
      destruct (step_producer_keeps s pr Hpr Hpi)
        as (Kc & Kp & Ksv & Kst & Krq & Kbd & Kreq & Kcl & Krd & Khd).
      split.
      * right; right; left. unfold inv_recv, started_inv in *.
        rewrite Kc, Ksv, Kst, Krq, Kbd, Kreq, Krd by (rewrite Hc; reflexivity).
        repeat split; auto; apply Hst.
      * intros Hcl Hconf. split; [apply Kcl, Hcl | apply Khd; assumption].
    + destruct H as (Hc & (pr & Hpr & Hpi) & Hch & Hst & Hsv & Hrd & Hbd).
      rewrite <- Hch in Hpi.
      destruct (step_producer_keeps s pr Hpr Hpi)
        as (Kc & Kp & Ksv & Kst & Krq & Kbd & Kreq & Kcl & Krd & Khd).
      split.
      * right; right; right; left. unfold inv_Body, started_inv in *.
        rewrite Kc, Ksv, Kst, Krq, Kbd, Kreq, Krd by (rewrite Hc; reflexivity).
        rewrite (Kcl Hch) in Kp.
        repeat split; auto; apply Hst.
      * intros Hcl Hconf. split; [apply Kcl, Hcl | apply Khd; assumption].
    + destruct H as (Hc & (pr & Hpr & Hpi) & Hch & Hst & Hbd & Hrd).
      rewrite <- Hch in Hpi.
      destruct (step_producer_keeps s pr Hpr Hpi)
        as (Kc & Kp & Ksv & Kst & Krq & Kbd & Kreq & Kcl & Krd & Khd).
      split.
      * right; right; right; right. unfold inv_after, started_inv in *.
        rewrite Kc, Ksv, Kst, Krq, Kbd, Kreq.
        rewrite (Kcl Hch) in Kp.
        repeat split; auto; try apply Hst.
        intros Hret. rewrite (Krd Hret). apply Hrd, Hret.
      * intros Hcl Hconf. split; [apply Kcl, Hcl | apply Khd; assumption].
Qed.

Lemma run_inv sched : forall s : sys A,
  inv f req p rs pr0 s ->
  inv f req p rs pr0 (sys_run st sf sched s) /\ head_kept pr0 s (sys_run st sf sched s).
Proof.
  induction sched as [| g sched IH]; intros s Hinv.
  - split; [exact Hinv | apply head_kept_refl].
  - change (sys_run st sf (g :: sched) s)
      with (sys_run st sf sched (sys_step st sf s g)).
    destruct (step_inv s g Hinv) as [H1 K1].
    destruct (IH _ H1) as [H2 K2].
    split; [exact H2|].
    intros Hcl Hconf. destruct (K1 Hcl Hconf) as (C1 & S1 & E1).
    destruct (K2 C1 Hconf) as (C2 & S2 & E2).
    split; [exact C2|]. split; congruence.
Qed.

Lemma inv_returned (s : sys A) :
  inv f req p rs pr0 s -> returned (caller s) = true -> inv_after f req p pr0 s.
Proof.
  intros [H | [H | [H | [H | H]]]] Hret; try exact H;
    destruct H as [Hc _]; rewrite Hc in Hret; discriminate.
Qed.

Lemma inv_waiting (s : sys A) :
  inv f req p rs pr0 s -> returned (caller s) = false ->
  rd (pipe (db (sworld s))) = [].
Proof.
  intros [H | [H | [H | [H | H]]]] Hret.
  - destruct H as (_ & _ & ->). reflexivity.
  - destruct H as (_ & _ & -> & _). reflexivity.
  - apply H.
  - apply H.
  - apply H, Hret.
Qed.

End Steps.

Lemma sys_run_app {A} st sf a b (s : sys A) :
  sys_run st sf (a ++ b) s = sys_run st sf b (sys_run st sf a s).
Proof. unfold sys_run. apply fold_left_app. Qed.





(** ** The theorems at work on the example request *)

Lemma Write_ends_stream_at_threshold_witness :
  let h : gmap string (list string) := <["Content-Length" := ["10"]]> ∅ in
  let w := example_world example_request h [Drains; Drains] in
  Atoi (Header_Get h "Content-Length") = (10, None) /\
  exists w',
    run (bind (WriteHeader example_StatusText 200) (fun _ =>
         bind (Writes [bytes "01234"; bytes "56789"]) (fun r1 =>
         bind (Writes [bytes "more"]) (fun r2 =>
         bind (Read 512) (fun r => Ret (r1, r2, r)))))) w
    = (Returns ([(5, None); (5, None)], [(0, Some ErrClosedPipe)], (0, Some EOF)), w') /\
    len (rd (pipe (db w'))) = 10.
Proof.
  intros h w. split; [reflexivity|].
  destruct (Write_ends_stream_at_threshold example_StatusText 200 10
              example_request h [bytes "01234"] (bytes "56789") [bytes "more"]
              [] 512%nat w)
    as (w' & Hrun & _ & _ & Hex).
  - reflexivity.
  - discriminate.
  - lia.
  - reflexivity.
  - reflexivity.
  - lia.
  - vm_compute. split; [reflexivity | discriminate].
  - vm_compute. discriminate.
  - reflexivity.
  - exists w'. split; [exact Hrun | apply Hex; reflexivity].
Defined.

Lemma no_body_on_HEAD_or_redirect_witness :
  let w := example_world example_request ∅ [Drains] in
  let w1 := signalled (closed (assigned 304 w)) in
  run (WriteHeader example_StatusText 304) w = (Returns tt, w1) /\
  run (Writes [bytes "ignored"]) w1 = (Returns [(0, None)], w1) /\
  run (Read 512) w1 = (Returns (0, Some EOF), w1).
Proof.
  intros w w1.
  destruct (no_body_on_HEAD_or_redirect example_StatusText 304 w)
    as (H1 & _ & H2 & _ & H3).
  - right. lia.
  - reflexivity.
  - reflexivity.
  - split; [exact H1|]. split; [apply (H2 [bytes "ignored"]) | apply H3].
Defined.

Lemma error_status_sends_reason_phrase_witness :
  let w := example_world example_request ∅ [Drains] in
  exists w1,
    run (WriteHeader example_StatusText 404) w = (Returns tt, w1) /\
    rd (pipe (db w1)) = bytes "Not Found" /\
    run (Read 512) w1 = (Returns (0, Some EOF), w1).
Proof.
  intros w.
  destruct (error_status_sends_reason_phrase example_StatusText 404 Drains [] w)
    as (n & err & w1 & Hrun & _ & _ & Hok & Hdr & Hread).
  - discriminate.
  - lia.
  - reflexivity.
  - split; left; reflexivity.
  - reflexivity.
  - destruct (Hdr eq_refl eq_refl) as [He Hr].
    destruct (Hok He) as [_ Hrd].
    exists w1. split; [exact Hrun|]. split; [exact Hrd|].
    rewrite (Hread 512%nat), Hr. reflexivity.
Defined.

Lemma Content_Encoding_never_auto_closes_witness :
  let h : gmap string (list string) :=
    <["Content-Encoding" := ["gzip"]]> (<["Content-Length" := ["5"]]> ∅) in
  let w := example_world example_request h [Drains; Drains] in
  let w1 := signalled (sized (-1) (assigned 200 w)) in
  run (WriteHeader example_StatusText 200) w = (Returns tt, w1) /\
  exists w2,
    run (Writes [bytes "01234"; bytes "56789"]) w1
    = (Returns [(5, None); (5, None)], w2) /\
    run (Read 512) w2 = (Blocks, w2).
Proof.
  intros h w w1.
  destruct (Content_Encoding_never_auto_closes example_StatusText 200 w)
    as (H1 & _ & _ & _ & _ & H2).
  - discriminate.
  - lia.
  - vm_compute. discriminate.
  - reflexivity.
  - split; [exact H1|].
    destruct (H2 [bytes "01234"; bytes "56789"] []) as (w2 & Hr & _ & Hb);
      [reflexivity | reflexivity |].
    exists w2. split; [exact Hr | apply Hb].
Defined.

Lemma negative_Content_Length_never_auto_closes_witness :
  let h : gmap string (list string) := <["Content-Length" := ["-5"]]> ∅ in
  let w := example_world example_request h [Drains; Drains] in
  let w1 := signalled (sized (-5) (assigned 200 w)) in
  Atoi (Header_Get h "Content-Length") = (-5, None) /\
  run (WriteHeader example_StatusText 200) w = (Returns tt, w1) /\
  exists w2,
    run (Writes [bytes "01234"; bytes "56789"]) w1
    = (Returns [(5, None); (5, None)], w2) /\
    run (Read 512) w2 = (Blocks, w2).
Proof.
  intros h w w1. split; [reflexivity|].
  destruct (negative_Content_Length_never_auto_closes example_StatusText 200 (-5) w)
    as (H1 & _ & _ & _ & _ & H2).
  - discriminate.
  - lia.
  - reflexivity.
  - reflexivity.
  - lia.
  - reflexivity.
  - split; [exact H1|].
    destruct (H2 [bytes "01234"; bytes "56789"] []) as (w2 & Hr & _ & Hb);
      [reflexivity | reflexivity |].
    exists w2. split; [exact Hr | apply Hb].
Defined.

Lemma unknown_length_gives_empty_body_witness :
  let h : gmap string (list string) := <["Content-Length" := ["ten"]]> ∅ in
  let w := example_world example_request h [Drains] in
  snd (Atoi (Header_Get h "Content-Length")) = Some ErrSyntax /\
  exists w1 w2,
    run (WriteHeader example_StatusText 200) w = (Returns tt, w1) /\
    run (Writes [bytes "0123456789"]) w1 = (Returns [(0, Some ErrClosedPipe)], w2) /\
    rd (pipe (db w2)) = [] /\
    run (Read 512) w2 = (Returns (0, Some EOF), w2).
Proof.
  intros h w. split; [reflexivity|].
  destruct (unknown_length_gives_empty_body example_StatusText 200 w)
    as (logs & w1 & H1 & _ & _ & _ & H2).
  - discriminate.
  - lia.
  - reflexivity.
  - right; right. vm_compute. discriminate.
  - reflexivity.
  - reflexivity.
  - destruct (H2 [bytes "0123456789"]) as (w2 & Hr & Hp & Hread).
    exists w1, w2. split; [exact H1|]. split; [exact Hr|].
    split; [rewrite Hp; reflexivity | apply Hread].
Defined.

Lemma headerDone_closed_once_witness :
  let w := example_world example_request ∅ [] in
  let r := run (WriteHeader example_StatusText 404) w in
  fst r = Blocks /\
  headerDone (db (snd r)) = Closed /\
  StatusCode (response (db (snd r))) = 404.
Proof.
  intros w r.
  destruct (headerDone_closed_once example_StatusText 404 w eq_refl)
    as (_ & H1 & H2 & _).
  split; [reflexivity|]. split; [exact H1 | exact H2].
Defined.

Lemma Close_is_idempotent_witness :
  let w := example_world example_request ∅ [] in
  run Close w = (Returns None, torn_down w) /\
  run Close (torn_down w) = (Returns None, torn_down (torn_down w)) /\
  run (Read 512) (torn_down (torn_down w))
  = (Returns (0, Some ErrClosedPipe), torn_down (torn_down w)) /\
  run (Read 512) (closed w) = (Returns (0, Some EOF), closed w).
Proof.
  intros w.
  destruct (Close_is_idempotent w) as (H1 & H2 & _ & _ & _ & _ & H3 & H4).
  - split; left; reflexivity.
  - split; [exact H1|]. split; [exact H2|]. split; [apply H3 | apply H4].
Defined.

Lemma example_ServeFile_conforms req p : conforms (example_ServeFile req p).
Proof. intros [n [e |]]; simpl; auto. Qed.


(** * Further properties of the code *)

(** ** One goroutine *)

(** X1. [CreateFilter] gives a filter exactly when the configuration is
    two strings, and the filter then holds them as prefix and root, in
    that order. *)
Theorem CreateFilter_ok_iff config f :
  CreateFilter config = inl f <->
  config = [I_string (webRoot f); I_string (root f)].
Proof.
  split.
  - destruct config as [| c0 [| c1 [| c2 rest]]]; try discriminate.
    unfold CreateFilter. simpl.
    destruct c0; try discriminate. destruct c1; try discriminate.
    simpl. intros H. inversion H. reflexivity.
  - intros ->. destruct f. reflexivity.
Qed.

Lemma WriteHeader_returns_closed st status w w1 :
  run (WriteHeader st status) w = (Returns tt, w1) ->
  headerDone (db w1) = Closed.
Proof.
  unfold WriteHeader, is_HEAD. world w.
  repeat first
    [ branch
    | progress (unfold PipeWriter_Write, PipeWriter_CloseWithError,
                  PipeReader_CloseWithError; simpl) ].
  all: intros H; inversion H; reflexivity.
Qed.

Lemma WriteHeader_on_closed st status w :
  headerDone (db w) = Closed ->
  fst (run (WriteHeader st status) w) = Panics /\
  StatusCode (response (db (snd (run (WriteHeader st status) w)))) = status /\
  Header (response (db (snd (run (WriteHeader st status) w))))
  = Header (response (db w)).
Proof.
  intros Hc. unfold WriteHeader, is_HEAD. world w.
  repeat first
    [ branch
    | progress (unfold PipeWriter_Write, PipeWriter_CloseWithError,
                  PipeReader_CloseWithError; simpl) ].
  all: repeat split.
Qed.

(** X2. After a call of [WriteHeader] that returned, every further call
    panics on [close(b.headerDone)], having overwritten the status code
    first; the headers are left as they were. *)
Theorem WriteHeader_twice_panics st s1 s2 w w1 :
  run (WriteHeader st s1) w = (Returns tt, w1) ->
  fst (run (WriteHeader st s2) w1) = Panics /\
  StatusCode (response (db (snd (run (WriteHeader st s2) w1)))) = s2 /\
  Header (response (db (snd (run (WriteHeader st s2) w1))))
  = Header (response (db w1)).
Proof.
  intros H. apply WriteHeader_on_closed. exact (WriteHeader_returns_closed _ _ _ _ H).
Qed.

Lemma digit_range c v : digit c = Some v -> 0 <= v <= 9.
Proof.
  unfold digit. destruct (Z.leb_spec 48 (Z.of_nat (Ascii.nat_of_ascii c)));
    destruct (Z.leb_spec (Z.of_nat (Ascii.nat_of_ascii c)) 57); simpl;
    intros E; inversion E; lia.
Qed.

Lemma ParseUint_digits_range s : forall n,
  0 <= n <= maxUint64 -> 0 <= fst (ParseUint_digits s n) <= maxUint64.
Proof.
  induction s as [| c s IH]; intros n Hn; simpl; [exact Hn|].
  destruct (digit c) as [v |] eqn:Hd; [|simpl; unfold maxUint64; lia].
  apply digit_range in Hd.
  destruct (Z.ltb_spec maxUint64 (n * 10 + v)); [simpl; unfold maxUint64; lia|].
  apply IH. lia.
Qed.

Lemma Atoi_range s : - 2 ^ 63 <= fst (Atoi s) <= maxInt.
Proof.
  unfold Atoi, ParseInt, maxInt. destruct s as [| c s]; [simpl; lia|].
  match goal with
  | |- context [let '(neg, digits) := ?x in _] => destruct x as [neg digits]
  end.
  assert (Hu : 0 <= fst (ParseUint digits) <= maxUint64).
  { unfold ParseUint. destruct digits; [simpl; unfold maxUint64; lia|].
    apply ParseUint_digits_range. unfold maxUint64. lia. }
  destruct (ParseUint digits) as [un [[] |]]; simpl in Hu; simpl; try lia.
  all: destruct neg; simpl;
    try (destruct (Z.ltb_spec (2 ^ 63) un); simpl; lia);
    destruct (Z.leb_spec (2 ^ 63) un); simpl; lia.
Qed.

(** X3. With a positive Content-Length and writes that stay below it,
    every write is forwarded and counted, the pipe stays open and the
    next read waits: a producer that stops short never ends the
    stream. *)
Theorem Write_short_of_Content_Length st status cl req h ws rs size w :
  db w = constructed req h ->
  Method req <> "HEAD" -> status < 300 ->
  Header_Get h "Content-Encoding" = "" ->
  Atoi (Header_Get h "Content-Length") = (cl, None) ->
  total_len ws < cl ->
  readers w = repeat Drains (length ws) ++ rs ->
  exists w',
    run (bind (WriteHeader st status) (fun _ => Writes ws)) w
    = (Returns (map (fun d => (len d, None)) ws), w') /\
    rd (pipe (db w')) = concat ws /\
    written (db w') = total_len ws /\
    pipe_done (pipe (db w')) = false /\
    run (Read size) w' = (Blocks, w').
Proof.
  intros Hdb Hm Hs Hce Hcl Hlt Hr.
  pose proof (total_len_nonneg ws) as Hpos.
  assert (Hmax : cl <= maxInt).
  { pose proof (Atoi_range (Header_Get h "Content-Length")) as Hrg.
    rewrite Hcl in Hrg. simpl in Hrg. lia. }
  set (w1 := signalled (sized cl (assigned status w))).
  assert (H1 : run (WriteHeader st status) w = (Returns tt, w1)).
  { apply WriteHeader_sized; rewrite ?Hdb; simpl; try assumption; try reflexivity. lia. }
  assert (Hdb1 : db w1 = set_headerDone Closed
                   (set_contentLength cl
                      (set_response (fun r => mkResponse status (Header r) (Body r))
                                    (constructed req h)))).
  { subst w1. unfold signalled, sized, assigned, set_db. cbn [db]. rewrite Hdb. reflexivity. }
  destruct (Writes_below ws w1 rs) as (w2 & H2 & Hdb2 & Hr2);
    [ | | | | exact Hr | ].
  { unfold has_body. rewrite Hdb1. simpl. split; assumption. }
  { rewrite Hdb1. reflexivity. }
  { rewrite Hdb1. simpl. lia. }
  { rewrite Hdb1. simpl. lia. }
  exists w2. rewrite run_bind, H1. split; [exact H2|].
  rewrite Hdb2, Hdb1. simpl. split; [reflexivity|]. split; [lia|].
  split; [reflexivity|].
  unfold Read. simpl. unfold PipeReader_Read. rewrite Hdb2, Hdb1. reflexivity.
Qed.

(** X4. When the reader gives the body up after [k] bytes of a write,
    that [Write] returns [(k, io.ErrClosedPipe)], the bytes taken are
    not counted in [written], both ends of the pipe are closed, and
    every later [Write] returns [(0, io.ErrClosedPipe)] and changes
    nothing in the bridge. *)
Theorem Write_reader_gives_up d k rs ws w :
  has_body w -> pipe_done (pipe (db w)) = false ->
  readers w = ClosesAfter k :: rs ->
  (k < length d)%nat ->
  exists w1 w2,
    run (Write d) w = (Returns (Z.of_nat k, Some ErrClosedPipe), w1) /\
    rd (pipe (db w1)) = rd (pipe (db w)) ++ take k d /\
    written (db w1) = written (db w) /\
    rerr (pipe (db w1)) = Some ErrClosedPipe /\
    werr (pipe (db w1)) = Some EOF /\
    run (Writes ws) w1 = (Returns (map (fun _ => (0, Some ErrClosedPipe)) ws), w2) /\
    db w2 = db w1.
Proof.
  intros Hb Hd Hr Hk.
  assert (H1 : exists w1,
    run (Write d) w = (Returns (Z.of_nat k, Some ErrClosedPipe), w1) /\
    pipe (db w1) = mkPipe (Some ErrClosedPipe) (Some EOF) (rd (pipe (db w)) ++ take k d) /\
    written (db w1) = written (db w) /\ has_body w1).
  { destruct Hb as [Hm Hs]. unfold Write, is_HEAD. world w. not_HEAD Hm.
    destruct (Z.leb_spec 300 w_sc); [lia|]. simpl.
    unfold PipeWriter_Write, pipe_done in *. simpl in *. rewrite Hd.
    destruct w_re, w_we; try discriminate. simpl.
    assert (Hlt : (Z.of_nat k <? len d) = true) by (apply Z.ltb_lt; unfold len; lia).
    rewrite Hlt. simpl.
    assert (Hn : len (take k d) = Z.of_nat k).
    { unfold len. rewrite length_take. lia. }
    rewrite Hn. eexists. split; [reflexivity|]. simpl.
    repeat split; assumption. }
  destruct H1 as (w1 & Hrun & Hp & Hw & Hb1).
  destruct (Writes_refused ws w1 Hb1) as (w2 & H2 & Hdb2).
  { rewrite Hp. reflexivity. }
  rewrite Hp in H2. exists w1, w2.
  split; [exact Hrun|]. rewrite Hp. simpl. repeat split; try assumption.
Qed.

(** What an effect of the sink's side does to a pipe that is closed. *)
Lemma handle_on_closed_pipe {X} (e : eff X) w o w' :
  of_caller e = false ->
  pipe_done (pipe (db w)) = true ->
  handle e w = (o, w') ->
  pipe_done (pipe (db w')) = true /\ rd (pipe (db w')) = rd (pipe (db w)).
Proof.
  intros Hc Hd H.
  destruct w as [[rq pth [sc hd bd] [re we r] cl wr ch] crq sv stt rds tr].
  destruct e; try discriminate Hc;
    unfold handle, PipeWriter_Write, PipeReader_Read, pipe_done,
      PipeWriter_CloseWithError, PipeReader_CloseWithError in *;
    simpl in *;
    destruct re, we, ch; simpl in *; try discriminate Hd;
    inversion H; subst; simpl; split; reflexivity.
Qed.

Lemma run_on_closed_pipe {A} (p : prog A) : forall w,
  sink_only p ->
  pipe_done (pipe (db w)) = true ->
  pipe_done (pipe (db (snd (run p w)))) = true /\
  rd (pipe (db (snd (run p w)))) = rd (pipe (db w)).
Proof.
  induction p as [a | X e k IH]; intros w Hs Hd; simpl; [split; [exact Hd | reflexivity]|].
  destruct Hs as [He Hk].
  destruct (handle e w) as [o w'] eqn:Hh.
  destruct (handle_on_closed_pipe e w o w' He Hd Hh) as [Hd' Hr'].
  destruct o as [x | |]; simpl; try (split; assumption).
  destruct (IH x w' (Hk x) Hd') as [H1 H2]. split; [exact H1 | congruence].
Qed.

(** X5. Once the pipe is closed, nothing a producer calls on the sink
    opens it again or gets another byte to the reader. *)
Theorem closed_pipe_stays_closed st pr w :
  pipe_done (pipe (db w)) = true ->
  let w' := snd (run (producer_prog st pr) w) in
  pipe_done (pipe (db w')) = true /\
  rd (pipe (db w')) = rd (pipe (db w)).
Proof.
  intros Hd. apply run_on_closed_pipe; [apply producer_sink_only | exact Hd].
Qed.

Lemma Write_keeps_head d w :
  fst (run (Write d) w) <> Panics /\ Write_keeps w (snd (run (Write d) w)).
Proof.
  unfold Write, is_HEAD, Write_keeps. world w.
  repeat first
    [ branch
    | progress (unfold PipeWriter_Write, PipeWriter_CloseWithError,
                  PipeReader_CloseWithError; simpl) ].
  all: split; [discriminate | repeat split].
Qed.

(** X6. No sequence of [Write] calls panics, and none changes the
    response (status code, headers, body), [headerDone] or
    [contentLength], whatever the state of the pipe and the reader. *)
Theorem Writes_keep_head ws : forall w,
  fst (run (Writes ws) w) <> Panics /\
  response (db (snd (run (Writes ws) w))) = response (db w) /\
  headerDone (db (snd (run (Writes ws) w))) = headerDone (db w) /\
  contentLength (db (snd (run (Writes ws) w))) = contentLength (db w).
Proof.
  induction ws as [| d ws IH]; intros w.
  - simpl. split; [discriminate | repeat split].
  - rewrite Writes_cons, run_bind.
    destruct (Write_keeps_head d w) as [Hp (H1 & H2 & H3 & _)].
    destruct (run (Write d) w) as [[r | |] w1]; simpl in *;
      try (split; [first [discriminate | congruence] | repeat split; assumption]).
    rewrite run_bind. specialize (IH w1). destruct IH as [Ip (I1 & I2 & I3)].
    destruct (run (Writes ws) w1) as [[rs | |] w2]; simpl in *;
      (split; [first [discriminate | congruence] | repeat split; congruence]).
Qed.

Lemma WriteHeader_on_HEAD st status w :
  Method (request (db w)) = "HEAD" ->
  HEAD_kept w (snd (run (WriteHeader st status) w)).
Proof.
  intros Hm. unfold WriteHeader, is_HEAD, HEAD_kept. world w.
  apply String.eqb_eq in Hm. rewrite Hm. simpl.
  unfold PipeWriter_CloseWithError. simpl.
  destruct w_we, w_ch; simpl; split; reflexivity.
Qed.

(** X12. On a [HEAD] request the reader never gets a byte, whatever the
    producer calls and in whatever order (writes before [WriteHeader],
    an error status, a second [WriteHeader]). *)
Theorem HEAD_gets_no_byte st pr : forall w,
  Method (request (db w)) = "HEAD" ->
  rd (pipe (db (snd (run (producer_prog st pr) w)))) = rd (pipe (db w)).
Proof.
  assert (G : forall w, Method (request (db w)) = "HEAD" ->
                        HEAD_kept w (snd (run (producer_prog st pr) w)));
    [|intros w Hm; apply G, Hm].
  induction pr as [| key vs next IH | status next IH | data next IH];
    intros w Hm; cbn [producer_prog].
  - split; reflexivity.
  - rewrite run_bind. simpl.
    match goal with |- HEAD_kept _ (snd (run _ ?w1)) =>
      destruct (IH w1) as [I1 I2]; [world w; assumption|];
      split; [rewrite I1 | rewrite I2]; world w; reflexivity
    end.
  - rewrite run_bind.
    destruct (WriteHeader_on_HEAD st status w Hm) as [H1 H2].
    destruct (run (WriteHeader st status) w) as [[[] | |] w1]; simpl in *;
      try (split; assumption).
    destruct (IH w1) as [I1 I2]; [congruence|]. split; congruence.
  - rewrite run_bind, Write_no_body by (left; exact Hm).
    apply IH, Hm.
Qed.

(** ** [newDelayed] and [Request] under a schedule *)

Lemma head_at_close_WriteHeader st status (f : unit -> prog unit) w :
  headerDone (db w) = Open ->
  head_at_close (bind (WriteHeader st status) f) w
  = Some (status, Header (response (db w))).
Proof.
  intros Ho. unfold WriteHeader, is_HEAD. world w.
  repeat first [ branch | progress simpl ]; reflexivity.
Qed.

Lemma head_at_close_announced st pr : forall w,
  headerDone (db w) = Open ->
  pipe_done (pipe (db w)) = false ->
  StatusCode (response (db w)) < 300 ->
  head_at_close (producer_prog st pr) w
  = announced (Method (request (db w)) =? "HEAD")%string pr (Header (response (db w))).
Proof.
  induction pr as [| key vs next IH | status next IH | data next IH];
    intros w Ho Hd Hs; cbn [producer_prog announced].
  - reflexivity.
  - simpl. rewrite IH; world w; auto.
  - apply head_at_close_WriteHeader, Ho.
  - unfold Write, is_HEAD. world w.
    destruct (w_rq.(Method) =? "HEAD")%string eqn:Hm; simpl.
    + rewrite IH; simpl; auto. rewrite Hm. reflexivity.
    + destruct (Z.leb_spec 300 w_sc); [lia|]. simpl. rewrite Hd. reflexivity.
Qed.

Section Head.
Context (st : Z -> string) (sf : http_Request -> string -> producer).
Context {A : Type} (f : ResponsePtr -> prog A).
Context (req : http_Request) (p : string) (rs : list reader).
Hypothesis f_serves : serves_and_returns (f OfBridge) None <> None.

(** One step of the producer while [headerDone] is open and the
    constructing goroutine has not returned. *)
Lemma step_producer_open (s : sys A) X (e : eff X) k :
  panicked s = false ->
  producing s = Some (Vis e k) ->
  of_caller e = false ->
  returned (caller s) = false ->
  headerDone (db (sworld s)) = Open ->
  (is_Close_headerDone e = true /\
   headerDone (db (sworld (step_producer s))) = Closed /\
   response (db (sworld (step_producer s))) = response (db (sworld s)) /\
   exists pr', producing (step_producer s) = Some pr') \/
  (is_Close_headerDone e = false /\
   is_Write e && negb (pipe_done (pipe (db (sworld s)))) = true /\
   step_producer s = s) \/
  (is_Close_headerDone e = false /\
   is_Write e && negb (pipe_done (pipe (db (sworld s)))) = false /\
   exists o w',
     handle e (sworld s) = (o, w') /\
     headerDone (db w') = Open /\
     match o with
     | Returns x => step_producer s = mkSys w' (caller s) (Some (k x)) false
     | Blocks => step_producer s = s
     | Panics => w' = sworld s /\
                 step_producer s = mkSys w' (caller s) (Some (Vis e k)) true
     end).
Proof.
  intros Hp Hpr Hc Hret Ho. unfold step_producer. rewrite Hp, Hpr, Hret.
  rewrite andb_true_r.
  destruct (is_Close_headerDone e) eqn:Hic.
  - left. split; [reflexivity|].
    destruct e; try discriminate. simpl. rewrite Ho. simpl.
    destruct (sworld s) as [[? ? ? ? ? ? ?] ? ? ? ? ?]. simpl.
    repeat split. eexists. reflexivity.
  - right.
    destruct (is_Write e && negb (pipe_done (pipe (db (sworld s))))) eqn:Hg.
    + left. repeat split.
    + right. split; [reflexivity|]. split; [reflexivity|].
      destruct (handle e (sworld s)) as [o w'] eqn:Hh.
      destruct (handle_sink e (sworld s) o w' Hc Hh)
        as (_ & _ & _ & _ & _ & _ & Hsame & _ & _ & _ & Hstuck).
      exists o, w'. split; [reflexivity|].
      split; [rewrite (Hsame Hic); exact Ho|].
      destruct o; try reflexivity.
      split; [apply Hstuck; left; reflexivity | reflexivity].
Qed.

Section Announced.
Context (t : Z * gmap string (list string)).
Hypothesis conforming : conforms (sf req p).
Hypothesis announces :
  announced (Method req =? "HEAD")%string (sf req p) ∅ = Some t.

Lemma step_head (s : sys A) g :
  inv f req p rs (sf req p) s -> head_inv t s ->
  head_inv t (sys_step st sf s g).
Proof.
  intros Hinv Hh.
  destruct (step_inv st sf f req p rs f_serves s g Hinv) as [Hinv' Hkept].
  destruct (panicked s) eqn:Hp.
  { assert (E : sys_step st sf s g = s).
    { destruct g; simpl; [unfold step_caller | unfold step_producer];
        rewrite Hp; reflexivity. }
    rewrite E. exact Hh. }
  unfold head_inv in Hh.
  destruct (producing s) as [pr |] eqn:Hpr.
  - destruct (headerDone (db (sworld s))) eqn:Hch.
    + (* open: the constructing goroutine waits at the receive *)
      assert (Hrecv : inv_recv f req p (sf req p) s).
      { destruct Hinv as [H | [H | [H | [H | H]]]]; try exact H.
        - destruct H as (_ & Hn & _). congruence.
        - destruct H as (_ & Hn & _). congruence.
        - destruct H as (_ & _ & Hc & _). congruence.
        - destruct H as (_ & _ & Hc & _). congruence. }
      destruct Hrecv as (Hc & (pr' & Hpr' & [Hsink _]) & _).
      rewrite Hpr in Hpr'. inversion Hpr'; subst pr'.
      destruct g; simpl.
      * unfold step_caller. rewrite Hp, Hc. simpl. rewrite Hch.
        unfold head_inv. rewrite Hpr, Hch. exact Hh.
      * destruct pr as [a | X e k]; [discriminate Hh|].
        destruct Hsink as [Hoc _].
        destruct (step_producer_open s X e k Hp Hpr Hoc) as
          [(Hic & Hcl & Hrsp & pr' & Hpr2) | [(Hic & Hg & E) | (Hic & Hg & o & w' & Hhd & Ho' & Hstep)]];
          try (rewrite Hc; reflexivity); try exact Hch.
        -- unfold head_inv. rewrite Hpr2, Hcl, Hrsp.
           simpl in Hh. rewrite Hic, Hch in Hh. inversion Hh. split; reflexivity.
        -- simpl in Hh. rewrite Hic, Hg in Hh. discriminate.
        -- simpl in Hh. rewrite Hic, Hg, Hhd in Hh.
           destruct o as [x | |]; try discriminate.
           rewrite Hstep. unfold head_inv. simpl. rewrite Ho'. exact Hh.
    + (* closed: status code and headers are kept *)
      destruct (Hkept Hch conforming) as (Hc' & Hs' & Hd').
      unfold head_inv. destruct (producing (sys_step st sf s g)); [|exact I].
      rewrite Hc', Hs', Hd'. exact Hh.
  - (* the producer is not started yet *)
    destruct g; simpl.
    + destruct Hinv as [H | [H | [H | [H | H]]]].
      * destruct H as (Hc & _ & Hw). unfold step_caller.
        rewrite Hp, Hc. simpl. unfold head_inv. simpl. rewrite Hpr. exact I.
      * destruct H as (Hc & _ & Hdb & _). unfold step_caller.
        rewrite Hp, Hc. simpl. unfold head_inv. simpl. rewrite Hdb. simpl.
        rewrite head_at_close_announced; simpl; rewrite ?Hdb; simpl;
          try reflexivity; try lia.
        exact announces.
      * destruct H as (_ & (pr & Hn & _) & _). congruence.
      * destruct H as (_ & (pr & Hn & _) & _). congruence.
      * destruct H as (_ & (pr & Hn & _) & _). congruence.
    + rewrite step_producer_idle by exact Hpr. unfold head_inv. rewrite Hpr. exact I.
Qed.

Lemma run_head sched : forall s : sys A,
  inv f req p rs (sf req p) s -> head_inv t s ->
  head_inv t (sys_run st sf sched s).
Proof.
  induction sched as [| g sched IH]; intros s Hinv Hh; [exact Hh|].
  change (sys_run st sf (g :: sched) s)
    with (sys_run st sf sched (sys_step st sf s g)).
  apply IH.
  - apply (step_inv st sf f req p rs f_serves s g Hinv).
  - apply step_head; assumption.
Qed.

End Announced.
End Head.

(** X8. If the producer keeps to the contract of its sink and gets as
    far as [WriteHeader], the response [newDelayed] returns carries the
    status code of that call and the headers put before it, under
    every schedule. *)
Theorem newDelayed_head_is_announced st sf req p rs sched status h :
  conforms (sf req p) ->
  announced (Method req =? "HEAD")%string (sf req p) ∅ = Some (status, h) ->
  let s := sys_run st sf sched (sys_init req rs (newDelayed req p)) in
  returned (caller s) = true ->
  StatusCode (response (db (sworld s))) = status /\
  Header (response (db (sworld s))) = h.
Proof.
  intros Hconf Hann s Hret.
  assert (Hf : serves_and_returns (Ret OfBridge : prog ResponsePtr) None <> None)
    by discriminate.
  assert (H0 : inv Ret req p rs (sf req p) (sys_init req rs (newDelayed req p))).
  { left. repeat split. }
  destruct (run_inv st sf Ret req p rs Hf sched _ H0) as [Hs _]. fold s in Hs.
  assert (Hh : head_inv (status, h) s).
  { apply (run_head st sf Ret req p rs Hf (status, h) Hconf Hann); [exact H0|].
    exact I. }
  destruct (inv_returned sf Ret req p rs s Hs Hret)
    as (_ & (pr & Hpr & _) & Hch & _).
  unfold head_inv in Hh. rewrite Hpr, Hch in Hh. exact Hh.
Qed.

Section Stuck.
Context (st : Z -> string) (sf : http_Request -> string -> producer).
Context {A : Type} (f : ResponsePtr -> prog A).
Context (req : http_Request) (p : string) (rs : list reader).
Hypothesis f_serves : serves_and_returns (f OfBridge) None <> None.
Hypothesis silent :
  announced (Method req =? "HEAD")%string (sf req p) ∅ = None.

Lemma step_stuck (s : sys A) g :
  inv f req p rs (sf req p) s -> stuck_inv s ->
  stuck_inv (sys_step st sf s g).
Proof.
  intros Hinv [Hch Hh].
  destruct (panicked s) eqn:Hp.
  { assert (E : sys_step st sf s g = s).
    { destruct g; simpl; [unfold step_caller | unfold step_producer];
        rewrite Hp; reflexivity. }
    rewrite E. split; assumption. }
  destruct Hinv as [H | [H | [H | [H | H]]]].
  - destruct H as (Hc & Hpr & Hw). destruct g; simpl.
    + unfold step_caller. rewrite Hp, Hc. simpl. split; [reflexivity|].
      rewrite Hpr. exact I.
    + rewrite step_producer_idle by exact Hpr. split; assumption.
  - destruct H as (Hc & Hpr & Hdb & _). destruct g; simpl.
    + unfold step_caller. rewrite Hp, Hc. simpl. rewrite Hdb. simpl.
      split; [reflexivity|]. cbn [producing sworld].
      rewrite head_at_close_announced; simpl; rewrite ?Hdb; simpl;
        try reflexivity; try lia.
      exact silent.
    + rewrite step_producer_idle by exact Hpr. split; assumption.
  - destruct H as (Hc & (pr & Hpr & [Hsink _]) & _). rewrite Hpr in Hh.
    destruct g; simpl.
    + unfold step_caller. rewrite Hp, Hc. simpl. rewrite Hch.
      split; [exact Hch|]. rewrite Hpr. exact Hh.
    + destruct pr as [a | X e k].
      { unfold step_producer. rewrite Hp, Hpr. split; [exact Hch|].
        rewrite Hpr. exact Hh. }
      destruct Hsink as [Hoc _].
      destruct (step_producer_open s X e k Hp Hpr Hoc) as
        [(Hic & _) | [(Hic & Hg & E) | (Hic & Hg & o & w' & Hhd & Ho' & Hstep)]];
        try (rewrite Hc; reflexivity); try exact Hch.
      * simpl in Hh. rewrite Hic, Hch in Hh. discriminate.
      * rewrite E. split; [exact Hch|]. rewrite Hpr. exact Hh.
      * simpl in Hh. rewrite Hic, Hg, Hhd in Hh.
        destruct o as [x | |].
        -- rewrite Hstep. split; [exact Ho' | exact Hh].
        -- rewrite Hstep. split; [exact Hch|]. rewrite Hpr. simpl.
           rewrite Hic, Hg, Hhd. reflexivity.
        -- destruct Hstep as [Ew Hstep]. rewrite Hstep. split; [exact Ho'|].
           simpl. rewrite Hic. subst w'. rewrite Hg, Hhd. reflexivity.
  - destruct H as (_ & _ & Hc & _). congruence.
  - destruct H as (_ & _ & Hc & _). congruence.
Qed.

Lemma run_stuck sched : forall s : sys A,
  inv f req p rs (sf req p) s -> stuck_inv s ->
  inv f req p rs (sf req p) (sys_run st sf sched s) /\
  stuck_inv (sys_run st sf sched s).
Proof.
  induction sched as [| g sched IH]; intros s Hinv Hh; [split; assumption|].
  change (sys_run st sf (g :: sched) s)
    with (sys_run st sf sched (sys_step st sf s g)).
  apply IH.
  - apply (step_inv st sf f req p rs f_serves s g Hinv).
  - apply step_stuck; assumption.
Qed.

End Stuck.

(** X7. If the producer does not get as far as [WriteHeader] (it
    returns without calling it, or, on a request that is not a [HEAD],
    writes first), [newDelayed] never returns, under any schedule:
    [headerDone] stays open and no byte is handed out. *)
Theorem newDelayed_never_returns st sf req p rs sched :
  announced (Method req =? "HEAD")%string (sf req p) ∅ = None ->
  let s := sys_run st sf sched (sys_init req rs (newDelayed req p)) in
  returned (caller s) = false /\
  headerDone (db (sworld s)) = Open /\
  rd (pipe (db (sworld s))) = [].
Proof.
  intros Hann s.
  assert (Hf : serves_and_returns (Ret OfBridge : prog ResponsePtr) None <> None)
    by discriminate.
  assert (H0 : inv Ret req p rs (sf req p) (sys_init req rs (newDelayed req p))).
  { left. repeat split. }
  destruct (run_stuck st sf Ret req p rs Hf Hann sched _ H0) as [Hs [Hch _]].
  { split; [reflexivity | exact I]. }
  fold s in Hs, Hch.
  assert (Hret : returned (caller s) = false).
  { destruct (returned (caller s)) eqn:E; [|reflexivity].
    destruct (inv_returned sf Ret req p rs s Hs E) as (_ & _ & Hc & _).
    congruence. }
  split; [exact Hret|]. split; [exact Hch|].
  apply (inv_waiting sf Ret req p rs s Hs Hret).
Qed.

Lemma sys_run_cons {A} st sf g sched (s : sys A) :
  sys_run st sf (g :: sched) s = sys_run st sf sched (sys_step st sf s g).
Proof. reflexivity. Qed.

(** The producer alone gets to the close of [headerDone] in finitely
    many steps when its program does so with nobody reading. *)
Lemma producer_reaches_close {A} st sf (c : prog A) t (pr : prog unit) :
  forall w,
    head_at_close pr w = Some t ->
    exists n pr' w',
      sys_run st sf (repeat Producing n) (mkSys w c (Some pr) false)
      = mkSys w' c (Some pr') false /\
      headerDone (db w') = Closed /\
      StatusCode (response (db w')) = fst t /\
      Header (response (db w')) = snd t.
Proof.
  induction pr as [a | X e k IH]; intros w H; [discriminate|].
  simpl in H.
  destruct (is_Close_headerDone e) eqn:Hic.
  - destruct (headerDone (db w)) eqn:Hch; [|discriminate]. inversion H; subst t.
    exists 1%nat. destruct e; try discriminate.
    eexists. eexists. split.
    { simpl. unfold step_producer. simpl. rewrite Hch. simpl. reflexivity. }
    destruct w as [[? ? ? ? ? ? ?] ? ? ? ? ?]. simpl. repeat split.
  - destruct (is_Write e && negb (pipe_done (pipe (db w)))) eqn:Hg; [discriminate|].
    destruct (handle e w) as [[x | |] w1] eqn:Hh; try discriminate.
    destruct (IH x w1 H) as (n & pr' & w' & Hrun & Hrest).
    exists (S n), pr', w'. split; [|exact Hrest].
    cbn [repeat]. rewrite sys_run_cons. simpl. unfold step_producer. simpl.
    rewrite Hg. simpl. rewrite Hh. exact Hrun.
Qed.

(** X9. If the producer gets as far as [WriteHeader], there is a
    schedule under which [newDelayed] returns, without panic, the
    response of the bridge with that status code, the headers put
    before, and the bridge as its body. *)
Theorem newDelayed_can_return st sf req p rs status h :
  announced (Method req =? "HEAD")%string (sf req p) ∅ = Some (status, h) ->
  exists sched,
    let s := sys_run st sf sched (sys_init req rs (newDelayed req p)) in
    caller s = Ret OfBridge /\
    panicked s = false /\
    StatusCode (response (db (sworld s))) = status /\
    Header (response (db (sworld s))) = h /\
    Body (response (db (sworld s))) = Some Delayed.
Proof.
  intros Hann.
  set (w2 := mkWorld (new_delayedBody req) req None [p] rs [E_new; E_go p]).
  assert (Hh : head_at_close (producer_prog st (sf req p)) w2 = Some (status, h)).
  { rewrite head_at_close_announced; simpl; try reflexivity; try lia. exact Hann. }
  destruct (producer_reaches_close st sf (at_recv Ret) (status, h) _ w2 Hh)
    as (n & pr' & w' & Hrun & Hch & Hs & Hd).
  exists ([Constructing; Constructing] ++ repeat Producing n
          ++ [Constructing; Constructing]).
  cbv zeta. rewrite !sys_run_app.
  assert (E1 : sys_run st sf [Constructing; Constructing]
                 (sys_init req rs (newDelayed req p))
               = mkSys w2 (at_recv Ret) (Some (producer_prog st (sf req p))) false)
    by reflexivity.
  rewrite E1, Hrun.
  simpl. unfold step_caller. simpl. rewrite Hch. simpl.
  destruct w' as [[? ? [? ? ?] ? ? ? ?] ? ? ? ? ?]. simpl in *.
  repeat split; assumption.
Qed.

Lemma string_from_app a : forall b,
  string_from (String.length a) (a ++ b)%string = b.
Proof. induction a as [| c a IH]; intros b; [reflexivity | apply IH]. Qed.

Lemma length_string_app a : forall b,
  String.length (a ++ b)%string = (String.length a + String.length b)%nat.
Proof. induction a as [| c a IH]; intros b; simpl; [reflexivity | rewrite IH; reflexivity]. Qed.

(** X10. [Request] looks at the length of the prefix only: a path at
    least as long is served from the root joined with what follows its
    first [len(webRoot)] characters, whatever these characters are. *)
Theorem Request_clips_by_length st pj sf f req rs a b :
  URL_Path req = (a ++ b)%string ->
  String.length a = String.length (webRoot f) ->
  let s := sys_run st sf [Constructing; Constructing; Constructing]
             (sys_init req rs (Request pj f)) in
  producing s = Some (producer_prog st (sf req (pj (root f) b))) /\
  started (sworld s) = [pj (root f) b] /\
  served (sworld s) = None.
Proof.
  intros Hpath Hlen s. subst s.
  assert (Hge : (String.length (URL_Path req) <? String.length (webRoot f))%nat = false).
  { apply Nat.ltb_ge. rewrite Hpath, length_string_app. lia. }
  unfold Request. simpl. unfold step_caller. simpl. rewrite Hge. simpl.
  rewrite Hpath, <- Hlen, string_from_app. repeat split.
Qed.

(** ** The further properties at work on the example request *)

Lemma WriteHeader_twice_panics_witness :
  let w := example_world example_request ∅ [] in
  let w1 := signalled (closed (assigned 304 w)) in
  run (WriteHeader example_StatusText 304) w = (Returns tt, w1) /\
  fst (run (WriteHeader example_StatusText 200) w1) = Panics /\
  StatusCode (response (db (snd (run (WriteHeader example_StatusText 200) w1)))) = 200.
Proof.
  intros w w1.
  assert (H : run (WriteHeader example_StatusText 304) w = (Returns tt, w1))
    by reflexivity.
  destruct (WriteHeader_twice_panics example_StatusText 304 200 w w1 H)
    as (H1 & H2 & _).
  split; [exact H|]. split; [exact H1 | exact H2].
Defined.

Lemma Write_short_of_Content_Length_witness :
  let h : gmap string (list string) := <["Content-Length" := ["10"]]> ∅ in
  let w := example_world example_request h [Drains] in
  exists w',
    run (bind (WriteHeader example_StatusText 200)
              (fun _ => Writes [bytes "01234"])) w
    = (Returns [(5, None)], w') /\
    run (Read 512) w' = (Blocks, w').
Proof.
  intros h w.
  destruct (Write_short_of_Content_Length example_StatusText 200 10
              example_request h [bytes "01234"] [] 512%nat w)
    as (w' & Hrun & _ & _ & _ & Hread).
  - reflexivity.
  - discriminate.
  - lia.
  - reflexivity.
  - reflexivity.
  - vm_compute. reflexivity.
  - reflexivity.
  - exists w'. split; [exact Hrun | exact Hread].
Defined.

Lemma Write_reader_gives_up_witness :
  let w := example_world example_request ∅ [ClosesAfter 2] in
  exists w1 w2,
    run (Write (bytes "hello")) w = (Returns (2, Some ErrClosedPipe), w1) /\
    written (db w1) = 0 /\
    run (Writes [bytes "more"]) w1 = (Returns [(0, Some ErrClosedPipe)], w2).
Proof.
  intros w.
  destruct (Write_reader_gives_up (bytes "hello") 2 [] [bytes "more"] w)
    as (w1 & w2 & H1 & _ & Hw & _ & _ & H2 & _).
  - split; [discriminate | simpl; lia].
  - reflexivity.
  - reflexivity.
  - vm_compute. lia.
  - exists w1, w2. split; [exact H1|]. split; [exact Hw | exact H2].
Defined.

Lemma closed_pipe_stays_closed_witness :
  let w := closed (example_world example_request ∅ [Drains; Drains]) in
  let w' := snd (run (producer_prog example_StatusText
                        (example_ServeFile example_request "/var/www/img/a.png")) w) in
  pipe_done (pipe (db w')) = true /\ rd (pipe (db w')) = [].
Proof.
  intros w w'.
  destruct (closed_pipe_stays_closed example_StatusText
              (example_ServeFile example_request "/var/www/img/a.png") w)
    as [H1 H2].
  - reflexivity.
  - split; [exact H1 | exact H2].
Defined.

Lemma HEAD_gets_no_byte_witness :
  let req := mkRequest "HEAD" "/static/img/a.png" in
  let w := example_world req ∅ [Drains; Drains] in
  rd (pipe (db (snd (run (producer_prog example_StatusText
                            (example_ServeFile req "/var/www/img/a.png")) w)))) = [].
Proof.
  intros req w.
  apply (HEAD_gets_no_byte example_StatusText
           (example_ServeFile req "/var/www/img/a.png") w).
  reflexivity.
Defined.

Lemma newDelayed_never_returns_witness :
  let listing (_ : http_Request) (_ : string) :=
    P_Header "Content-Type" ["text/html; charset=utf-8"]
      (P_Write (bytes "<pre>") (fun _ => P_return)) in
  let s := sys_run example_StatusText listing
             ([Constructing; Constructing] ++ repeat Producing 8
              ++ [Constructing; Constructing])
             (sys_init example_request [Drains]
                (newDelayed example_request "/var/www/img")) in
  returned (caller s) = false /\ headerDone (db (sworld s)) = Open.
Proof.
  intros listing s.
  destruct (newDelayed_never_returns example_StatusText listing example_request
              "/var/www/img" [Drains]
              ([Constructing; Constructing] ++ repeat Producing 8
               ++ [Constructing; Constructing]))
    as (H1 & H2 & _).
  - reflexivity.
  - split; [exact H1 | exact H2].
Defined.

Lemma newDelayed_head_is_announced_witness :
  let sched := [Constructing; Constructing] ++ repeat Producing 8
               ++ [Constructing; Constructing] in
  let s := sys_run example_StatusText example_ServeFile sched
             (sys_init example_request [Drains; Drains]
                (newDelayed example_request "/var/www/img/a.png")) in
  returned (caller s) = true /\
  StatusCode (response (db (sworld s))) = 200 /\
  Header (response (db (sworld s))) = <["Content-Length" := ["10"]]> ∅.
Proof.
  intros sched s.
  assert (Hret : returned (caller s) = true) by reflexivity.
  destruct (newDelayed_head_is_announced example_StatusText example_ServeFile
              example_request "/var/www/img/a.png" [Drains; Drains] sched
              200 (<["Content-Length" := ["10"]]> ∅)) as [H1 H2].
  - apply example_ServeFile_conforms.
  - reflexivity.
  - exact Hret.
  - split; [exact Hret|]. split; [exact H1 | exact H2].
Defined.

Lemma newDelayed_can_return_witness :
  exists sched,
    let s := sys_run example_StatusText example_ServeFile sched
               (sys_init example_request [Drains; Drains]
                  (newDelayed example_request "/var/www/img/a.png")) in
    caller s = Ret OfBridge /\
    StatusCode (response (db (sworld s))) = 200.
Proof.
  destruct (newDelayed_can_return example_StatusText example_ServeFile
              example_request "/var/www/img/a.png" [Drains; Drains]
              200 (<["Content-Length" := ["10"]]> ∅))
    as (sched & H1 & _ & H2 & _).
  - reflexivity.
  - exists sched. split; [exact H1 | exact H2].
Defined.

Lemma Request_clips_by_length_witness :
  let req := mkRequest "GET" "/secret/img/a.png" in
  let s := sys_run example_StatusText example_ServeFile
             [Constructing; Constructing; Constructing]
             (sys_init req [] (Request example_Join example_filter)) in
  started (sworld s) = ["/var/www/img/a.png"].
Proof.
  intros req s.
  destruct (Request_clips_by_length example_StatusText example_Join
              example_ServeFile example_filter req [] "/secret/" "img/a.png")
    as (_ & H & _).
  - reflexivity.
  - reflexivity.
  - exact H.
Defined.

(** * [static.Request] and the producer's [WriteHeader] *)






(** ** The theorem at work on the example request *)

